(** * ResNet model builder (models/resnet/resnet.hpp, resnet_impl.hpp)

    A shallow embedding of the mlpack ResNet builder and the properties of
    its shape bookkeeping and of the layer graph its constructor builds.

    - [size_t] values are integers in [0, 2^64) with wrap-around written out.
    - [double] values are IEEE 754 binary64 numbers, given by the Standard
      Library's executable specification [SpecFloat] at precision 53 and
      maximal exponent 1024.
    - Layers live in a heap of objects addressed by pointers, as the C++
      code allocates them with [new] and stores the pointers in containers.
    - The constructor runs in a state and exception monad: [Log::Fatal] of
      mlpack throws [std::runtime_error] when its message is ended by
      [std::endl]; a conversion of a double outside the range of [size_t]
      is undefined behaviour and is modelled as the outcome [Undefined].
    - What the constructor prints on [std::cout] is left out. *)

From stdpp Require Import base list strings.
From Stdlib Require Import ZArith Lia SpecFloat.

Local Open Scope Z_scope.

(** ** Unsigned 64-bit arithmetic *)

Module SizeT.

Definition modulus : Z := 2 ^ 64.

Definition wrap (z : Z) : Z := z mod modulus.

Definition add (a b : Z) : Z := wrap (a + b).
Definition sub (a b : Z) : Z := wrap (a - b).
Definition mul (a b : Z) : Z := wrap (a * b).

End SizeT.

(** ** IEEE 754 binary64 *)

Module Double.

Definition prec : Z := 53.
Definition emax : Z := 1024.

Definition double : Type := spec_float.

(** Conversion of an integer to [double] (round to nearest, ties to even). *)
Definition of_Z (n : Z) : double := binary_normalize prec emax n 0 false.

Definition div : double -> double -> double := SFdiv prec emax.
Definition add : double -> double -> double := SFadd prec emax.

(** [std::floor] on a double: an integral value is returned as it is,
    any other finite value is rounded towards minus infinity. *)
Definition floor (d : double) : double :=
  match d with
  | S754_finite s m e =>
      if (0 <=? e) || (Z.pos m mod 2 ^ (- e) =? 0) then d
      else binary_normalize prec emax
             (Z.shiftl (cond_Zopp s (Z.pos m)) e) 0 s
  | _ => d
  end.

(** Integer part of a finite double, towards zero. *)
Definition trunc (s : bool) (m : positive) (e : Z) : Z :=
  cond_Zopp s (Z.shiftl (Z.pos m) e).

(** Conversion of a double to [size_t]: the value is truncated towards
    zero; the behaviour is undefined ([None]) when the truncated value
    cannot be represented in [size_t], and for infinities and NaN. *)
Definition to_size_t (d : double) : option Z :=
  match d with
  | S754_zero _ => Some 0
  | S754_finite s m e =>
      let t := trunc s m e in
      if (0 <=? t) && (t <? SizeT.modulus) then Some t else None
  | S754_infinity _ | S754_nan => None
  end.

(** *** Vocabulary of the rounding proofs

    Values are measured in units of [2 ^ -1074], the least positive
    binary64 number, so that they are integers. *)

Definition ulps (m e : Z) : Z := m * 2 ^ (e + 1074).

(** [faithful num den v]: the value [v] is a faithful rounding of the
    rational [num / den]: no number [M * 2 ^ g] with [M <= 2 ^ 53] lies
    strictly between them. *)
Definition faithful (num den v : Z) : Prop :=
  forall M g, 0 <= M <= 2 ^ 53 -> -1074 <= g ->
    (ulps M g * den <= num -> ulps M g <= v) /\
    (num <= ulps M g * den -> v <= ulps M g).

(** A shift record [(m, r, s)] locates the rational [num / den] when
    [m] is its integer part and the round and sticky bits are set only if
    the rational is above [m]. *)
Definition located (mrs : shr_record) (num den : Z) : Prop :=
  0 <= shr_m mrs /\
  shr_m mrs * den <= num < (shr_m mrs + 1) * den /\
  (shr_r mrs || shr_s mrs = true -> shr_m mrs * den < num).

(** The double computation of [ConvOutSize] on the extent [x]:
    [floor(x) / s + 1], converted to [size_t]. *)
Definition quotient_plus_one (x s : Z) : option Z :=
  to_size_t (add (div (floor (of_Z x)) (of_Z s)) (of_Z 1)).

End Double.

(** ** [ConvOutSize] (resnet.hpp, lines 186-192)

    [return std::floor(size + 2 * padding - k) / s + 1;]

    The argument of [std::floor] is computed in [size_t]; [std::floor] on an
    integer converts it to [double] and returns a [double], so the division
    by [s] and the addition of [1] are operations on doubles, and the
    [return] converts the double result back to [size_t]. *)
Definition ConvOutSize (size k s padding : Z) : option Z :=
  let extent := SizeT.sub (SizeT.add size (SizeT.mul 2 padding)) k in
  Double.to_size_t
    (Double.add
       (Double.div (Double.floor (Double.of_Z extent)) (Double.of_Z s))
       (Double.of_Z 1)).

(** ** Layers

    The layer types of [mlpack::ann] used by the builder, with their
    constructor arguments.  A container holds its children: pointers in
    the heap ([node ptr]), layers in the structural view ([layer]). *)

Inductive node (child : Type) : Type :=
| Convolution (inSize outSize kernelWidth kernelHeight
               strideWidth strideHeight padW padH
               inputWidth inputHeight : Z)
| BatchNorm (size : Z)
| ReLULayer
| Padding (padWLeft padWRight padHTop padHBottom : Z)
| MaxPooling (kernelWidth kernelHeight strideWidth strideHeight : Z)
| AdaptiveMeanPooling (outputWidth outputHeight : Z)
| Linear (inSize outSize : Z)
| IdentityLayer
| Sequential (network : list child)
| AddMerge (model run : bool) (network : list child).

Arguments Convolution {child}.
Arguments BatchNorm {child}.
Arguments ReLULayer {child}.
Arguments Padding {child}.
Arguments MaxPooling {child}.
Arguments AdaptiveMeanPooling {child}.
Arguments Linear {child}.
Arguments IdentityLayer {child}.
Arguments Sequential {child}.
Arguments AddMerge {child}.

#[local] Set Warnings "-register-all".
Inductive layer : Type := Layer (n : node layer).

Definition ptr : Type := nat.

Definition node_mapM {A B : Type} (f : A -> option B) (n : node A)
  : option (node B) :=
  match n with
  | Convolution a b c d e g h i j k => Some (Convolution a b c d e g h i j k)
  | BatchNorm a => Some (BatchNorm a)
  | ReLULayer => Some ReLULayer
  | Padding a b c d => Some (Padding a b c d)
  | MaxPooling a b c d => Some (MaxPooling a b c d)
  | AdaptiveMeanPooling a b => Some (AdaptiveMeanPooling a b)
  | Linear a b => Some (Linear a b)
  | IdentityLayer => Some IdentityLayer
  | Sequential l => Sequential <$> mapM f l
  | AddMerge m r l => AddMerge m r <$> mapM f l
  end.

(** The layer tree reachable from a pointer, to a given depth. *)
Fixpoint structure (depth : nat) (h : list (node ptr)) (p : ptr)
  : option layer :=
  match depth with
  | O => None
  | S depth' =>
      match h !! p with
      | Some n => Layer <$> node_mapM (structure depth' h) n
      | None => None
      end
  end.

(** ** The [ResNet] object and the heap *)

Record state : Type := {
  heap : list (node ptr);       (* objects allocated with [new] *)
  resNet : list ptr;            (* the layers of the [FFN] member *)
  inputChannel : Z;
  inputWidth : Z;
  inputHeight : Z;
  numClasses : Z;
}.

Definition basicBlockExpansion : Z := 1.
Definition bottleNeckExpansion : Z := 4.

(** The containers built here nest four deep at most. *)
Definition graph (s : state) : option (list layer) :=
  mapM (structure 8 (heap s)) (resNet s).

(** ** Outcomes: normal return, exception, undefined behaviour *)

Inductive outcome (A : Type) : Type :=
| Done (a : A) (s : state)
| Fatal (message : string) (s : state)   (* [Log::Fatal] threw *)
| Undefined.

Arguments Done {A}.
Arguments Fatal {A}.
Arguments Undefined {A}.

Definition M (A : Type) : Type := state -> outcome A.

Definition ret {A : Type} (a : A) : M A := fun s => Done a s.

Definition bind {A B : Type} (m : M A) (k : A -> M B) : M B :=
  fun s =>
    match m s with
    | Done a s' => k a s'
    | Fatal message s' => Fatal message s'
    | Undefined => Undefined
    end.

Declare Scope build_scope.
Delimit Scope build_scope with build.
Notation "x <- m ;; k" := (bind m (fun x => k))
  (at level 100, m at next level, right associativity) : build_scope.
Notation "m ;; k" := (bind m (fun _ => k))
  (at level 100, right associativity) : build_scope.
Local Open Scope build_scope.

(** [new T(args)] *)
Definition new (n : node ptr) : M ptr :=
  fun s =>
    Done (length (heap s))
      {| heap := heap s ++ [n]; resNet := resNet s;
         inputChannel := inputChannel s; inputWidth := inputWidth s;
         inputHeight := inputHeight s; numClasses := numClasses s |}.

(** [resNet.Add(layer)] *)
Definition resNet_Add (p : ptr) : M unit :=
  fun s =>
    Done tt
      {| heap := heap s; resNet := resNet s ++ [p];
         inputChannel := inputChannel s; inputWidth := inputWidth s;
         inputHeight := inputHeight s; numClasses := numClasses s |}.

(** [container->Add(layer)] on a [Sequential] or an [AddMerge] *)
Definition container_Add (c p : ptr) : M unit :=
  fun s =>
    let update n :=
      Done tt
        {| heap := <[c := n]> (heap s); resNet := resNet s;
           inputChannel := inputChannel s; inputWidth := inputWidth s;
           inputHeight := inputHeight s; numClasses := numClasses s |} in
    match heap s !! c with
    | Some (Sequential l) => update (Sequential (l ++ [p]))
    | Some (AddMerge m r l) => update (AddMerge m r (l ++ [p]))
    | _ => Undefined
    end.

Definition get_inputWidth : M Z := fun s => Done (inputWidth s) s.
Definition get_inputHeight : M Z := fun s => Done (inputHeight s) s.

Definition set_inputWidth (w : Z) : M unit :=
  fun s =>
    Done tt
      {| heap := heap s; resNet := resNet s;
         inputChannel := inputChannel s; inputWidth := w;
         inputHeight := inputHeight s; numClasses := numClasses s |}.

Definition set_inputHeight (h : Z) : M unit :=
  fun s =>
    Done tt
      {| heap := heap s; resNet := resNet s;
         inputChannel := inputChannel s; inputWidth := inputWidth s;
         inputHeight := h; numClasses := numClasses s |}.

(** [mlpack::Log::Fatal << message << std::endl]: the fatal stream of
    mlpack prints the message and throws [std::runtime_error] at the end
    of the line; nothing after it is executed. *)
Definition Log_Fatal {A : Type} (message : string) : M A :=
  fun s => Fatal message s.

(** A [size_t] read from a double; undefined when out of range. *)
Definition defined (r : option Z) : M Z :=
  fun s => match r with Some z => Done z s | None => Undefined end.

(** [inputWidth = ConvOutSize(inputWidth, k, s, padding)] and the same for
    the height. *)
Definition update_width (k s padding : Z) : M unit :=
  w <- get_inputWidth ;;
  w' <- defined (ConvOutSize w k s padding) ;;
  set_inputWidth w'.

Definition update_height (k s padding : Z) : M unit :=
  h <- get_inputHeight ;;
  h' <- defined (ConvOutSize h k s padding) ;;
  set_inputHeight h'.

(** ** The block builders (resnet.hpp) *)

(** [ConvolutionBlock3x3] (lines 70-88) and [ConvolutionBlock1x1] (lines
    90-108) have the same body and differ in their default arguments
    only, which are written out at the calls.  The assignment to
    [inputwidth] is read as one to the member [inputWidth]. *)
Definition ConvolutionBlock (baseLayer : ptr)
    (inSize outSize kernelWidth kernelHeight
     strideWidth strideHeight padW padH : Z) : M unit :=
  w <- get_inputWidth ;;
  h <- get_inputHeight ;;
  conv <- new (Convolution inSize outSize kernelWidth kernelHeight
                 strideWidth strideHeight padW padH w h) ;;
  container_Add baseLayer conv ;;
  update_width kernelWidth strideWidth padW ;;
  update_height kernelHeight strideHeight padH.

Definition ConvolutionBlock3x3 := ConvolutionBlock.
Definition ConvolutionBlock1x1 := ConvolutionBlock.

(** [DownSample] (lines 110-124).  Its call of [ConvolutionBlock1x1] passes
    [inputWidth] and [inputHeight] as two more arguments than the function
    takes; they are dropped. *)
Definition DownSample (downSample : ptr)
    (inSize outSize kernelWidth kernelHeight
     strideWidth strideHeight padW padH : Z) : M unit :=
  ConvolutionBlock1x1 downSample inSize outSize kernelWidth kernelHeight
    strideWidth strideHeight padW padH ;;
  bn <- new (BatchNorm outSize) ;;
  container_Add downSample bn.

(** [BasicBlock] (lines 126-152); [seqentialBlock] in the source is the
    local [sequentialBlock]. *)
Definition BasicBlock (inSize outSize : Z) (downSample : bool)
    (kernelWidth kernelHeight : Z) : M unit :=
  basicBlock <- new (Sequential []) ;;
  resBlock <- new (AddMerge true true []) ;;
  sequentialBlock <- new (Sequential []) ;;
  ConvolutionBlock3x3 sequentialBlock inSize outSize
    kernelWidth kernelHeight 1 1 1 1 ;;
  bn1 <- new (BatchNorm outSize) ;;
  container_Add sequentialBlock bn1 ;;
  relu1 <- new ReLULayer ;;
  container_Add sequentialBlock relu1 ;;
  ConvolutionBlock3x3 sequentialBlock outSize outSize 3 3 1 1 1 1 ;;
  bn2 <- new (BatchNorm outSize) ;;
  container_Add sequentialBlock bn2 ;;
  container_Add resBlock sequentialBlock ;;
  (if downSample
   then DownSample resBlock inSize outSize 1 1 1 1 0 0
   else (id <- new IdentityLayer ;; container_Add resBlock id)) ;;
  container_Add basicBlock resBlock ;;
  relu2 <- new ReLULayer ;;
  container_Add basicBlock relu2 ;;
  resNet_Add basicBlock.

(** [BottleNeck] (lines 154-156) has no parameter and an empty body. *)
Definition BottleNeck : M unit := ret tt.

Fixpoint repeatM (n : nat) (body : M unit) : M unit :=
  match n with
  | O => ret tt
  | S n' => body ;; repeatM n' body
  end.

(** [MakeLayer] (lines 158-185).  The loop
    [for (size_t i = 1; i != numBlocks; ++i)] runs [numBlocks - 1] times,
    the subtraction taken in [size_t].  The calls of [basicBlock] and
    [bottleneck] are those of [BasicBlock] and [BottleNeck]; the latter
    has nowhere to take the three arguments. *)
Definition MakeLayer (block : string) (outSize numBlocks stride : Z)
  : M unit :=
  let inSize := 64 in
  let downSample := false in
  if String.eqb block "basicblock" then
    let downSample :=
      if negb (stride =? 1)
         || negb (inSize =? SizeT.mul inSize basicBlockExpansion)
      then true else downSample in
    BasicBlock inSize outSize downSample 1 1 ;;
    let inSize := SizeT.mul inSize basicBlockExpansion in
    repeatM (Z.to_nat (SizeT.sub numBlocks 1))
      (BasicBlock inSize outSize false 1 1)
  else if String.eqb block "bottleneck" then
    let downSample :=
      if negb (stride =? 1)
         || negb (inSize =? SizeT.mul inSize bottleNeckExpansion)
      then true else downSample in
    BottleNeck ;;
    let inSize := SizeT.mul inSize bottleNeckExpansion in
    repeatM (Z.to_nat (SizeT.sub numBlocks 1)) BottleNeck
  else ret tt.

(** ** The constructor (resnet_impl.hpp, lines 52-160) *)

(** Lines 65-94: the block counts and the block builder of the version. *)
Definition resolve_version (ResNetVersion : Z) : M (list Z * string) :=
  if ResNetVersion =? 18 then ret ([2; 2; 2; 2], "basicblock"%string)
  else if ResNetVersion =? 34 then ret ([3; 4; 6; 3], "basicblock"%string)
  else if ResNetVersion =? 50 then ret ([3; 4; 6; 3], "bottleneck"%string)
  else if ResNetVersion =? 101 then ret ([3; 4; 23; 3], "bottleneck"%string)
  else if ResNetVersion =? 152 then ret ([3; 8; 36; 3], "bottleneck"%string)
  else Log_Fatal
         "Incorrect ResNet version. Possible Values are: 18, 34, 50, 101 and 152".

(** Lines 96-126: the first convolution, batch normalisation, activation,
    padding and max pooling, with the updates of the input dimensions. *)
Definition stem : M unit :=
  w <- get_inputWidth ;;
  h <- get_inputHeight ;;
  conv <- new (Convolution 3 64 7 7 2 2 3 3 w h) ;;
  resNet_Add conv ;;
  update_width 7 2 3 ;;
  update_height 7 2 3 ;;
  bn <- new (BatchNorm 64) ;;
  resNet_Add bn ;;
  relu <- new ReLULayer ;;
  resNet_Add relu ;;
  pad <- new (Padding 1 1 1 1) ;;
  resNet_Add pad ;;
  w <- get_inputWidth ;;
  set_inputWidth (SizeT.add w 2) ;;
  h <- get_inputHeight ;;
  set_inputHeight (SizeT.add h 2) ;;
  pool <- new (MaxPooling 3 3 2 2) ;;
  resNet_Add pool ;;
  update_width 3 2 0 ;;
  update_height 3 2 0.

(** Lines 128-132: what the constructor appends after the stem.  The calls
    of [MakeLayer] and the classification head (lines 134-158) are
    commented out in the source. *)
Definition after_stem : M unit :=
  sequentialBlock <- new (Sequential []) ;;
  w <- get_inputWidth ;;
  h <- get_inputHeight ;;
  conv1 <- new (Convolution 64 64 3 3 1 1 1 1 w h) ;;
  container_Add sequentialBlock conv1 ;;
  conv2 <- new (Convolution 64 64 3 3 1 1 1 1 w h) ;;
  container_Add sequentialBlock conv2 ;;
  resNet_Add sequentialBlock ;;
  id <- new IdentityLayer ;;
  resNet_Add id.

Definition ResNet_body (ResNetVersion : Z) (includeTop preTrained : bool)
  : M unit :=
  config <- resolve_version ResNetVersion ;;
  stem ;;
  after_stem.

(** [ResNet(inputShape, includeTop, preTrained, numClasses)]: the member
    initialisers, then the body, on a heap [h]. *)
Definition ResNet (ResNetVersion : Z) (inputShape : Z * Z * Z)
    (includeTop preTrained : bool) (numClasses : Z) (h : list (node ptr))
  : outcome unit :=
  ResNet_body ResNetVersion includeTop preTrained
    {| heap := h; resNet := [];
       inputChannel := fst (fst inputShape);
       inputWidth := snd (fst inputShape);
       inputHeight := snd inputShape;
       numClasses := numClasses |}.

(** [ResNet()] (lines 20-29): no layer, all dimensions zero. *)
Definition ResNet_default (h : list (node ptr)) : outcome unit :=
  Done tt {| heap := h; resNet := []; inputChannel := 0; inputWidth := 0;
             inputHeight := 0; numClasses := 0 |}.

(** [ResNet(inputChannel, inputWidth, inputHeight, includeTop, preTrained,
    numClasses)] (lines 31-50) forwards to the constructor above. *)
Definition ResNet_of_dimensions (ResNetVersion : Z)
    (inputChannel inputWidth inputHeight : Z)
    (includeTop preTrained : bool) (numClasses : Z) (h : list (node ptr))
  : outcome unit :=
  ResNet ResNetVersion (inputChannel, inputWidth, inputHeight)
    includeTop preTrained numClasses h.

(** [GetModel] returns the [FFN] member. *)
Definition GetModel (s : state) : list ptr := resNet s.

(** What a caller observes of a construction: the layer graph of the
    object, or the exception. *)
Inductive observed : Type :=
| Built (layers : list layer)
| Failed (message : string)
| Broken.

Definition observe (o : outcome unit) : observed :=
  match o with
  | Done _ s =>
      match graph s with Some g => Built g | None => Broken end
  | Fatal message _ => Failed message
  | Undefined => Broken
  end.

(** ** Vocabulary of the properties *)

(** The versions the constructor accepts. *)
Definition supported (ResNetVersion : Z) : Prop :=
  ResNetVersion = 18 \/ ResNetVersion = 34 \/ ResNetVersion = 50 \/
  ResNetVersion = 101 \/ ResNetVersion = 152.

(** The objects of the stem, and those that follow it, at base address [b]. *)
Definition stem_objects (w h : Z) : list (node ptr) :=
  [ Convolution 3 64 7 7 2 2 3 3 w h; BatchNorm 64; ReLULayer;
    Padding 1 1 1 1; MaxPooling 3 3 2 2 ].

Definition after_stem_objects (b : nat) (w3 h3 : Z) : list (node ptr) :=
  [ Sequential [(b + 6)%nat; (b + 7)%nat];
    Convolution 64 64 3 3 1 1 1 1 w3 h3;
    Convolution 64 64 3 3 1 1 1 1 w3 h3;
    IdentityLayer ].

Definition stem_layers (w h : Z) : list layer :=
  [ Layer (Convolution 3 64 7 7 2 2 3 3 w h); Layer (BatchNorm 64);
    Layer ReLULayer; Layer (Padding 1 1 1 1); Layer (MaxPooling 3 3 2 2) ].

Definition after_stem_layers (w3 h3 : Z) : list layer :=
  [ Layer (Sequential [ Layer (Convolution 64 64 3 3 1 1 1 1 w3 h3);
                        Layer (Convolution 64 64 3 3 1 1 1 1 w3 h3) ]);
    Layer IdentityLayer ].

(** The shape [BasicBlock] gives to a residual block. *)
Definition is_residual_block (l : layer) : bool :=
  match l with
  | Layer (Sequential (Layer (AddMerge _ _ _) :: _)) => true
  | _ => false
  end.

Definition is_head_layer (l : layer) : bool :=
  match l with
  | Layer (AdaptiveMeanPooling _ _) | Layer (Linear _ _) => true
  | _ => false
  end.

(** The branches summed with the main path of a residual block. *)
Definition shortcut (block : layer) : option (list layer) :=
  match block with
  | Layer (Sequential (Layer (AddMerge _ _ (_ :: branches)) :: _)) =>
      Some branches
  | _ => None
  end.

(** The container [n] with one more child. *)
Definition is_container (n : node ptr) : bool :=
  match n with
  | Sequential _ | AddMerge _ _ _ => true
  | _ => false
  end.

Definition with_child (n : node ptr) (p : ptr) : node ptr :=
  match n with
  | Sequential l => Sequential (l ++ [p])
  | AddMerge m r l => AddMerge m r (l ++ [p])
  | _ => n
  end.

(** The tree of a basic block built at input size [w] x [h], whose main
    path leaves the size [w1] x [h1]. *)
Definition basic_block_layer (inSize outSize : Z) (downSample : bool)
    (kernelWidth kernelHeight w h w1 h1 : Z) : layer :=
  Layer (Sequential
    [ Layer (AddMerge true true
        (Layer (Sequential
           [ Layer (Convolution inSize outSize kernelWidth kernelHeight
                      1 1 1 1 w h);
             Layer (BatchNorm outSize); Layer ReLULayer;
             Layer (Convolution outSize outSize 3 3 1 1 1 1 w1 h1);
             Layer (BatchNorm outSize) ])
         :: (if downSample
             then [ Layer (Convolution inSize outSize 1 1 1 1 0 0 w1 h1);
                    Layer (BatchNorm outSize) ]
             else [ Layer IdentityLayer ])));
      Layer ReLULayer ]).

(** The objects of that block, allocated from address [b] on. *)
Definition basic_block_objects (b : nat) (inSize outSize : Z)
    (downSample : bool) (kernelWidth kernelHeight w h w1 h1 : Z)
  : list (node ptr) :=
  [ Sequential [(b + 1)%nat; (b + (if downSample then 10 else 9))%nat];
    AddMerge true true
      ((b + 2)%nat
       :: (if downSample then [(b + 8)%nat; (b + 9)%nat] else [(b + 8)%nat]));
    Sequential [(b + 3)%nat; (b + 4)%nat; (b + 5)%nat; (b + 6)%nat;
                (b + 7)%nat];
    Convolution inSize outSize kernelWidth kernelHeight 1 1 1 1 w h;
    BatchNorm outSize; ReLULayer;
    Convolution outSize outSize 3 3 1 1 1 1 w1 h1;
    BatchNorm outSize ]
  ++ (if downSample
      then [ Convolution inSize outSize 1 1 1 1 0 0 w1 h1; BatchNorm outSize ]
      else [ IdentityLayer ])
  ++ [ ReLULayer ].

(** The blocks [MakeLayer] builds after the first one of a stage: [count]
    blocks from 64 channels with the identity shortcut, each two wider and
    higher than the one before. *)
Fixpoint later_blocks (count : nat) (outSize w h : Z) : list layer :=
  match count with
  | O => []
  | S count' =>
      basic_block_layer 64 outSize false 1 1 w h (w + 2) (h + 2)
      :: later_blocks count' outSize (w + 2) (h + 2)
  end.

(** What [BasicBlock] does to the network whenever it returns, whatever
    the tracked sizes are: one more layer, and no fatal error. *)
Definition appends_layers (count : nat) (s : state) (o : outcome unit)
  : Prop :=
  match o with
  | Done _ s' => length (resNet s') = (length (resNet s) + count)%nat
  | Fatal _ _ => False
  | Undefined => True
  end.

(** * Facts on the binary64 operations

    The rounding of [SpecFloat] is characterised on positive values by a
    sandwich property: a rounded result never crosses a representable
    number. *)

Module DoubleFacts.

Import Double.

Lemma digits2_pos_bounds (p : positive) :
  2 ^ (Z.pos (digits2_pos p) - 1) <= Z.pos p < 2 ^ Z.pos (digits2_pos p).
Proof.
  induction p as [p IH | p IH |]; cbn [digits2_pos].
  - rewrite Pos2Z.inj_succ.
    replace (Z.succ (Z.pos (digits2_pos p)) - 1)
      with (Z.succ (Z.pos (digits2_pos p) - 1)) by lia.
    rewrite !Z.pow_succ_r by lia. lia.
  - rewrite Pos2Z.inj_succ.
    replace (Z.succ (Z.pos (digits2_pos p)) - 1)
      with (Z.succ (Z.pos (digits2_pos p) - 1)) by lia.
    rewrite !Z.pow_succ_r by lia. lia.
  - cbn. lia.
Qed.

Lemma digits2_pos_unique (p : positive) (k : Z) :
  2 ^ (k - 1) <= Z.pos p < 2 ^ k -> Z.pos (digits2_pos p) = k.
Proof.
  intros [Hlo Hhi].
  destruct (digits2_pos_bounds p) as [Dlo Dhi].
  assert (0 < k).
  { destruct (Z.ltb_spec 0 k); [ assumption | ].
    assert (k = 0 \/ k < 0) as [-> | Hneg] by lia.
    - cbn in Hhi. lia.
    - rewrite (Z.pow_neg_r 2 k) in Hhi by lia. lia. }
  destruct (Z.lt_trichotomy (Z.pos (digits2_pos p)) k) as [Hlt | [Heq | Hgt]].
  - assert (2 ^ Z.pos (digits2_pos p) <= 2 ^ (k - 1))
      by (apply Z.pow_le_mono_r; lia).
    lia.
  - assumption.
  - assert (2 ^ k <= 2 ^ (Z.pos (digits2_pos p) - 1))
      by (apply Z.pow_le_mono_r; lia).
    lia.
Qed.

(** *** Shifting a mantissa to the right *)

Lemma shr_1_located mrs num den :
  0 < den -> located mrs num den -> located (shr_1 mrs) num (den * 2).
Proof.
  intros Hden (Hm & Hb & Hrs).
  destruct mrs as [m r s]; cbn [shr_m shr_r shr_s] in *.
  assert (Hrs' : r || s = true -> m * den < num) by exact Hrs.
  unfold located.
  destruct m as [| [p | p |] | p]; cbn [shr_1 shr_m shr_r shr_s];
    [ | | | | exfalso; lia ].
  - split; [ lia | split; [ lia | ] ].
    rewrite orb_false_l. intros H. specialize (Hrs' H). lia.
  - split; [ lia | split; [ nia | ] ]. intros _. nia.
  - split; [ lia | split; [ nia | ] ].
    rewrite orb_false_l. intros H. specialize (Hrs' H). nia.
  - split; [ lia | split; [ nia | ] ]. intros _. nia.
Qed.

Lemma iter_pos_shr_1_located (p : positive) :
  forall mrs num den,
    0 < den -> located mrs num den ->
    located (iter_pos shr_1 p mrs) num (den * 2 ^ Z.pos p).
Proof.
  induction p as [p IH | p IH |]; intros mrs num den Hden Hloc;
    cbn [iter_pos].
  - replace (den * 2 ^ Z.pos p~1)
      with (den * 2 * 2 ^ Z.pos p * 2 ^ Z.pos p).
    + apply IH; [ | apply IH; [ lia | apply shr_1_located; assumption ] ].
      assert (0 < 2 ^ Z.pos p) by (apply Z.pow_pos_nonneg; lia). nia.
    + replace (Z.pos p~1) with (1 + Z.pos p + Z.pos p) by lia.
      rewrite !Z.pow_add_r by lia. change (2 ^ 1) with 2. ring.
  - replace (den * 2 ^ Z.pos p~0)
      with (den * 2 ^ Z.pos p * 2 ^ Z.pos p).
    + apply IH; [ | apply IH; assumption ].
      assert (0 < 2 ^ Z.pos p) by (apply Z.pow_pos_nonneg; lia). nia.
    + replace (Z.pos p~0) with (Z.pos p + Z.pos p) by lia.
      rewrite Z.pow_add_r by lia. ring.
  - change (2 ^ 1) with 2. apply shr_1_located; assumption.
Qed.

Lemma shr_located mrs e n num den :
  0 <= n -> 0 < den -> located mrs num den ->
  exists mrs', shr mrs e n = (mrs', e + n) /\
               located mrs' num (den * 2 ^ n).
Proof.
  intros Hn Hden Hloc. destruct n as [| p | p]; [ | | lia ]; cbn [shr].
  - exists mrs. rewrite Z.add_0_r, Z.pow_0_r, Z.mul_1_r. auto.
  - eexists; split; [ reflexivity | ].
    apply iter_pos_shr_1_located; assumption.
Qed.

(** *** Rounding never crosses a representable number *)

Lemma mul_lt_cancel (x y k : Z) : 0 < k -> x * k < y * k -> x < y.
Proof. intros Hk H. apply Z.mul_lt_mono_pos_r in H; assumption. Qed.

Lemma mul_le_cancel (x y k : Z) : 0 < k -> x * k <= y * k -> x <= y.
Proof. intros Hk H. apply Z.mul_le_mono_pos_r in H; assumption. Qed.

(** The bound [M * 2 ^ b] is on the grid of the rounded mantissa. *)
Lemma sandwich_fine (m' m1 num den A N C M : Z) :
  0 < den -> 0 < A -> 0 < N -> 0 < C -> 0 <= M ->
  m' * (den * N) <= num < (m' + 1) * (den * N) ->
  (m1 = m' \/ (m1 = m' + 1 /\ m' * (den * N) < num)) ->
  (M * (C * A * N) * den <= num * A -> M * (C * A * N) <= m1 * (A * N)) /\
  (num * A <= M * (C * A * N) * den -> m1 * (A * N) <= M * (C * A * N)).
Proof.
  intros Hden HA HN HC HM [Hlo Hhi] Hm1.
  assert (HAN : 0 < A * N) by lia.
  assert (HdN : 0 < den * N) by lia.
  split; intros H.
  - assert (H1 : M * C * (den * N) <= num).
    { apply (mul_le_cancel _ _ A HA). lia. }
    assert (H2 : M * C < m' + 1).
    { apply (mul_lt_cancel _ _ (den * N) HdN). lia. }
    assert (H3 : M * C <= m1) by lia.
    apply (Z.mul_le_mono_nonneg_r _ _ (A * N)) in H3; lia.
  - assert (H1 : num <= M * C * (den * N)).
    { apply (mul_le_cancel _ _ A HA). lia. }
    assert (H3 : m1 <= M * C).
    { destruct Hm1 as [-> | [-> Hlt]].
      - apply (mul_le_cancel _ _ (den * N) HdN). lia.
      - assert (m' < M * C); [ | lia ].
        apply (mul_lt_cancel _ _ (den * N) HdN). lia. }
    apply (Z.mul_le_mono_nonneg_r _ _ (A * N)) in H3; lia.
Qed.

(** The bound [M * 2 ^ b] is below the grid of the rounded mantissa: it
    is then at most the least number of that binade. *)
Lemma sandwich_coarse (m' m1 num den A N C Bp M : Z) :
  0 < den -> 0 < A -> 0 < N -> 2 <= C -> 0 < Bp -> A * N = C * Bp ->
  0 <= M <= 2 ^ 53 -> 2 ^ 52 <= m' ->
  m' * (den * N) <= num < (m' + 1) * (den * N) ->
  (m1 = m' \/ (m1 = m' + 1 /\ m' * (den * N) < num)) ->
  (M * Bp * den <= num * A -> M * Bp <= m1 * (A * N)) /\
  (num * A <= M * Bp * den -> m1 * (A * N) <= M * Bp).
Proof.
  intros Hden HA HN HC HB HAN HM Hm' [Hlo Hhi] Hm1.
  change (2 ^ 53) with 9007199254740992 in *.
  change (2 ^ 52) with 4503599627370496 in *.
  assert (HmC : 9007199254740992 <= m' * C) by nia.
  assert (Hm1' : m' <= m1) by lia.
  rewrite HAN.
  split; intros H.
  - assert (M <= m1 * C) by nia.
    replace (m1 * (C * Bp)) with (m1 * C * Bp) by ring.
    apply Z.mul_le_mono_nonneg_r; lia.
  - assert (H1 : m' * (den * N) * A <= M * Bp * den) by nia.
    assert (H2 : m' * C * (Bp * den) <= M * (Bp * den)).
    { replace (m' * C * (Bp * den)) with (m' * (C * Bp) * den) by ring.
      rewrite <- HAN. lia. }
    assert (HBd : 0 < Bp * den) by lia.
    apply mul_le_cancel in H2; [ | assumption ].
    assert (HMeq : m' * C = M) by lia.
    destruct Hm1 as [-> | [-> Hlt]].
    + replace (m' * (C * Bp)) with (m' * C * Bp) by ring.
      rewrite HMeq. lia.
    + exfalso.
      assert (H3 : m' * (den * N) * A < M * Bp * den) by nia.
      assert (H4 : m' * C * (Bp * den) < M * (Bp * den)).
      { replace (m' * C * (Bp * den)) with (m' * (C * Bp) * den) by ring.
        rewrite <- HAN. lia. }
      apply mul_lt_cancel in H4; [ | assumption ]. lia.
Qed.

Lemma sandwich (m' m1 num den a n b M : Z) :
  0 < den -> 0 <= a -> 0 <= n -> 0 <= b ->
  0 <= M <= 2 ^ 53 -> 2 ^ 52 <= m' ->
  m' * (den * 2 ^ n) <= num < (m' + 1) * (den * 2 ^ n) ->
  (m1 = m' \/ (m1 = m' + 1 /\ m' * (den * 2 ^ n) < num)) ->
  (M * 2 ^ b * den <= num * 2 ^ a -> M * 2 ^ b <= m1 * 2 ^ (a + n)) /\
  (num * 2 ^ a <= M * 2 ^ b * den -> m1 * 2 ^ (a + n) <= M * 2 ^ b).
Proof.
  intros Hden Ha Hn Hb HM Hm' Hloc Hm1.
  assert (HA : 0 < 2 ^ a) by (apply Z.pow_pos_nonneg; lia).
  assert (HN : 0 < 2 ^ n) by (apply Z.pow_pos_nonneg; lia).
  rewrite (Z.pow_add_r 2 a n) by lia.
  destruct (Z.le_gt_cases (a + n) b) as [Hle | Hgt].
  - replace (2 ^ b) with (2 ^ (b - (a + n)) * 2 ^ a * 2 ^ n).
    + apply (sandwich_fine m'); try assumption; try lia.
    + rewrite <- !Z.pow_add_r by lia. f_equal. lia.
  - apply (sandwich_coarse m' m1 num den (2 ^ a) (2 ^ n) (2 ^ (a + n - b)));
      try assumption.
    + change 2 with (2 ^ 1) at 1. apply Z.pow_le_mono_r; lia.
    + apply Z.pow_pos_nonneg; lia.
    + rewrite <- !Z.pow_add_r by lia. f_equal. lia.
Qed.

Lemma rne_cases mrs :
  let m1 := round_nearest_even (shr_m mrs) (loc_of_shr_record mrs) in
  m1 = shr_m mrs \/ (m1 = shr_m mrs + 1 /\ shr_r mrs = true).
Proof.
  destruct mrs as [m [] []]; cbn; try destruct (Z.even m); auto.
Qed.

Lemma located_of_loc mx lx num den :
  0 <= mx -> mx * den <= num < (mx + 1) * den ->
  (lx <> loc_Exact -> mx * den < num) ->
  located (shr_record_of_loc mx lx) num den.
Proof.
  intros Hm Hb Hlx.
  destruct lx as [| []]; unfold located; cbn;
    (split; [ assumption | split; [ assumption | ] ]);
    intros H; try discriminate H; apply Hlx; discriminate.
Qed.

(** [binary_round_aux] on a positive mantissa of at least 53 digits,
    away from the subnormal and overflow ranges. *)
Lemma binary_round_aux_rounds mx ex lx num den :
  let d := Z.pos (digits2_pos mx) in
  53 <= d -> -1074 <= ex -> ex + d <= 1023 -> 0 < den ->
  Z.pos mx * den <= num < (Z.pos mx + 1) * den ->
  (lx <> loc_Exact -> Z.pos mx * den < num) ->
  exists m e,
    binary_round_aux prec emax false (Z.pos mx) ex lx
      = S754_finite false m e /\
    2 ^ 52 <= Z.pos m < 2 ^ 53 /\
    ex + d - 53 <= e <= ex + d - 52 /\
    forall M g, 0 <= M <= 2 ^ 53 -> -1074 <= g ->
      (ulps M g * den <= num * 2 ^ (ex + 1074) ->
       ulps M g <= ulps (Z.pos m) e) /\
      (num * 2 ^ (ex + 1074) <= ulps M g * den ->
       ulps (Z.pos m) e <= ulps M g).
Proof.
  intros d Hd Hex Hov Hden Hb Hlx.
  pose proof (digits2_pos_bounds mx) as Hdig. fold d in Hdig.
  set (n := d - 53).
  assert (HN : 0 < 2 ^ n) by (apply Z.pow_pos_nonneg; lia).
  assert (Hd1 : 2 ^ (d - 1) = 2 ^ 52 * 2 ^ n).
  { rewrite <- Z.pow_add_r by lia. f_equal. lia. }
  assert (Hd2 : 2 ^ d = 2 ^ 53 * 2 ^ n).
  { rewrite <- Z.pow_add_r by lia. f_equal. lia. }
  unfold binary_round_aux, shr_fexp. cbn [Zdigits2]. fold d.
  replace (fexp prec emax (d + ex) - ex) with n
    by (unfold fexp, emin, prec, emax; lia).
  destruct (shr_located (shr_record_of_loc (Z.pos mx) lx) ex n num den)
    as (mrs' & Hshr & Hm'0 & Hb' & Hrs');
    [ lia | lia | apply located_of_loc; [ lia | assumption .. ] | ].
  rewrite Hshr.
  pose proof (rne_cases mrs') as Hr. cbv zeta in Hr.
  set (m1 := round_nearest_even (shr_m mrs') (loc_of_shr_record mrs')) in *.
  set (m' := shr_m mrs') in *.
  assert (Hm1 : m1 = m' \/ (m1 = m' + 1 /\ m' * (den * 2 ^ n) < num)).
  { destruct Hr as [Hr | [Hr Hrt]]; [ left; assumption | right ].
    split; [ assumption | ]. apply Hrs'. rewrite Hrt. reflexivity. }
  assert (Hm'hi : m' < 2 ^ 53).
  { apply (mul_lt_cancel _ _ (den * 2 ^ n)); [ lia | ].
    assert (Z.pos mx + 1 <= 2 ^ 53 * 2 ^ n) by lia.
    assert ((Z.pos mx + 1) * den <= 2 ^ 53 * 2 ^ n * den)
      by (apply Z.mul_le_mono_nonneg_r; lia).
    lia. }
  assert (Hm'lo : 2 ^ 52 <= m').
  { assert (2 ^ 52 < m' + 1); [ | lia ].
    apply (mul_lt_cancel _ _ (den * 2 ^ n)); [ lia | ].
    assert (2 ^ 52 * 2 ^ n * den <= Z.pos mx * den)
      by (apply Z.mul_le_mono_nonneg_r; lia).
    lia. }
  assert (Hsand : forall M g, 0 <= M <= 2 ^ 53 -> -1074 <= g ->
      (ulps M g * den <= num * 2 ^ (ex + 1074) ->
       ulps M g <= m1 * 2 ^ (ex + 1074 + n)) /\
      (num * 2 ^ (ex + 1074) <= ulps M g * den ->
       m1 * 2 ^ (ex + 1074 + n) <= ulps M g)).
  { intros M g HM Hg. unfold ulps.
    apply (sandwich m'); try assumption; lia. }
  destruct (Z.eq_dec m1 (2 ^ 53)) as [Heq | Hne].
  - (* the rounding carried into the next binade *)
    rewrite Heq. change (Zdigits2 (2 ^ 53)) with 54.
    replace (fexp prec emax (54 + (ex + n)) - (ex + n)) with 1
      by (unfold fexp, emin, prec, emax; lia).
    cbn [shr shr_record_of_loc iter_pos].
    change (shr_1 {| shr_m := 2 ^ 53; shr_r := false; shr_s := false |})
      with {| shr_m := 2 ^ 52; shr_r := false; shr_s := false |}.
    cbn [shr_m]. change (2 ^ 52) with (Z.pos 4503599627370496) at 1.
    cbv iota beta.
    replace (ex + n + 1 <=? emax - prec) with true
      by (symmetry; apply Z.leb_le; unfold emax, prec; lia).
    exists 4503599627370496%positive, (ex + n + 1).
    split; [ reflexivity | ]. split; [ cbn; lia | ]. split; [ lia | ].
    intros M g HM Hg. specialize (Hsand M g HM Hg).
    replace (ulps (Z.pos 4503599627370496) (ex + n + 1))
      with (m1 * 2 ^ (ex + 1074 + n)); [ exact Hsand | ].
    unfold ulps. rewrite Heq.
    replace (ex + n + 1 + 1074) with (1 + (ex + 1074 + n)) by lia.
    rewrite (Z.pow_add_r 2 1) by lia. cbn. lia.
  - assert (Hm1r : 2 ^ 52 <= m1 < 2 ^ 53) by lia.
    destruct m1 as [| pm1 | pm1]; [ cbn in Hm1r; lia | | lia ].
    cbn [Zdigits2].
    rewrite (digits2_pos_unique pm1 53) by exact Hm1r.
    replace (fexp prec emax (53 + (ex + n)) - (ex + n)) with 0
      by (unfold fexp, emin, prec, emax; lia).
    cbn [shr shr_record_of_loc shr_m].
    replace (ex + n <=? emax - prec) with true
      by (symmetry; apply Z.leb_le; unfold emax, prec; lia).
    exists pm1, (ex + n).
    split; [ reflexivity | ]. split; [ assumption | ]. split; [ lia | ].
    intros M g HM Hg. specialize (Hsand M g HM Hg).
    replace (ulps (Z.pos pm1) (ex + n))
      with (Z.pos pm1 * 2 ^ (ex + 1074 + n)); [ exact Hsand | ].
    unfold ulps. f_equal. f_equal. lia.
Qed.

(** *** Normalisation of an integer mantissa *)

Lemma iter_xO_value (k p : positive) :
  Z.pos (Pos.iter xO p k) = Z.pos p * 2 ^ Z.pos k.
Proof.
  induction k as [| k IH] using Pos.peano_ind.
  - cbn. lia.
  - rewrite Pos.iter_succ, Pos2Z.inj_succ, Z.pow_succ_r by lia.
    rewrite Pos2Z.inj_xO, IH. ring.
Qed.

Lemma shl_align_fst (m : positive) (e ez : Z) :
  ez <= e ->
  Z.pos (fst (shl_align m e ez)) = Z.pos m * 2 ^ (e - ez) /\
  snd (shl_align m e ez) = ez.
Proof.
  intros Hle. unfold shl_align.
  destruct (ez - e) as [| q | q] eqn:Hq; cbn [fst snd].
  - replace (e - ez) with 0 by lia. cbn. lia.
  - lia.
  - rewrite iter_xO_value. replace (e - ez) with (Z.pos q) by lia. auto.
Qed.

Lemma ulps_shift (m e k : Z) :
  0 <= k -> -1074 <= e - k -> ulps (m * 2 ^ k) (e - k) = ulps m e.
Proof.
  intros Hk He. unfold ulps.
  replace (e + 1074) with (k + (e - k + 1074)) by lia.
  rewrite (Z.pow_add_r 2 k) by lia. ring.
Qed.

Lemma binary_round_rounds (p : positive) (ex : Z) :
  let d := Z.pos (digits2_pos p) in
  -1074 <= ex -> -1074 <= ex + d - 53 -> ex + d <= 1023 ->
  exists m e,
    binary_round prec emax false p ex = S754_finite false m e /\
    2 ^ 52 <= Z.pos m < 2 ^ 53 /\
    ex + d - 53 <= e <= ex + d - 52 /\
    forall M g, 0 <= M <= 2 ^ 53 -> -1074 <= g ->
      (ulps M g <= ulps (Z.pos p) ex -> ulps M g <= ulps (Z.pos m) e) /\
      (ulps (Z.pos p) ex <= ulps M g -> ulps (Z.pos m) e <= ulps M g).
Proof.
  intros d Hex Hlo Hhi.
  pose proof (digits2_pos_bounds p) as Hdig. fold d in Hdig.
  unfold binary_round.
  replace (fexp prec emax (Z.pos (digits2_pos p) + ex))
    with (ex + d - 53) by (unfold fexp, emin, prec, emax; fold d; lia).
  destruct (Z.le_gt_cases 53 d) as [Hge | Hlt].
  - (* enough digits: the mantissa is kept *)
    assert (Hal : shl_align p ex (ex + d - 53) = (p, ex)).
    { unfold shl_align.
      destruct (ex + d - 53 - ex) eqn:Hq; [ reflexivity .. | lia ]. }
    rewrite Hal.
    pose proof (binary_round_aux_rounds p ex loc_Exact (Z.pos p) 1) as HB.
    cbv zeta in HB. fold d in HB.
    destruct HB as (m & e & Hr & Hm & He & Hs); try lia; try congruence.
    exists m, e.
    split; [ assumption | ]. split; [ assumption | ]. split; [ lia | ].
    intros M g HM Hg. destruct (Hs M g HM Hg) as [Hs1 Hs2].
    unfold ulps in *. split; intros H; [ apply Hs1 | apply Hs2 ]; lia.
  - (* fewer digits: the mantissa is shifted to 53 digits *)
    destruct (shl_align_fst p ex (ex + d - 53)) as [Hf Hsnd]; [ lia | ].
    destruct (shl_align p ex (ex + d - 53)) as [mz ez].
    cbn [fst snd] in Hf, Hsnd. subst ez.
    replace (ex - (ex + d - 53)) with (53 - d) in Hf by lia.
    assert (Hk : 0 < 2 ^ (53 - d)) by (apply Z.pow_pos_nonneg; lia).
    assert (Hdz : Z.pos (digits2_pos mz) = 53).
    { apply digits2_pos_unique. rewrite Hf.
      replace (2 ^ (53 - 1)) with (2 ^ (d - 1) * 2 ^ (53 - d)).
      - replace (2 ^ 53) with (2 ^ d * 2 ^ (53 - d)).
        + nia.
        + rewrite <- Z.pow_add_r by lia. f_equal. lia.
      - rewrite <- Z.pow_add_r by lia. f_equal. lia. }
    pose proof (binary_round_aux_rounds mz (ex + d - 53) loc_Exact
                  (Z.pos mz) 1) as HB.
    cbv zeta in HB. rewrite Hdz in HB.
    destruct HB as (m & e & Hr & Hm & He & Hs); try lia; try congruence.
    exists m, e.
    assert (Hu : ulps (Z.pos mz) (ex + d - 53) = ulps (Z.pos p) ex).
    { rewrite Hf. replace (ex + d - 53) with (ex - (53 - d)) by lia.
      apply ulps_shift; lia. }
    split; [ assumption | ]. split; [ assumption | ]. split; [ lia | ].
    intros M g HM Hg. destruct (Hs M g HM Hg) as [Hs1 Hs2].
    unfold ulps in *. split; intros H; [ apply Hs1 | apply Hs2 ]; lia.
Qed.

Lemma digits2_pos_range (p : positive) (a b : Z) :
  0 <= a -> 2 ^ a <= Z.pos p < 2 ^ b ->
  a + 1 <= Z.pos (digits2_pos p) <= b.
Proof.
  intros Ha [Hlo Hhi].
  destruct (digits2_pos_bounds p) as [Dlo Dhi].
  split.
  - destruct (Z.le_gt_cases (a + 1) (Z.pos (digits2_pos p))); [ assumption | ].
    assert (2 ^ Z.pos (digits2_pos p) <= 2 ^ a)
      by (apply Z.pow_le_mono_r; lia).
    lia.
  - destruct (Z.le_gt_cases (Z.pos (digits2_pos p)) b); [ assumption | ].
    assert (2 ^ b <= 2 ^ (Z.pos (digits2_pos p) - 1))
      by (apply Z.pow_le_mono_r; lia).
    lia.
Qed.

(** *** Division of two positive normal doubles *)

Lemma new_location_inexact (n k : Z) :
  new_location n k <> loc_Exact -> k <> 0.
Proof.
  unfold new_location, new_location_even, new_location_odd.
  intros H ->. destruct (Z.even n); cbn in H; congruence.
Qed.

Lemma div_rounds (m1 m2 : positive) (e1 e2 : Z) :
  2 ^ 52 <= Z.pos m1 < 2 ^ 53 -> 2 ^ 52 <= Z.pos m2 < 2 ^ 53 ->
  -1074 <= e1 -> -1074 <= e2 -> -1021 <= e1 - e2 <= 1022 ->
  exists m e,
    div (S754_finite false m1 e1) (S754_finite false m2 e2)
      = S754_finite false m e /\
    2 ^ 52 <= Z.pos m < 2 ^ 53 /\
    e1 - e2 - 53 <= e <= e1 - e2 - 51 /\
    forall M g, 0 <= M <= 2 ^ 53 -> -1074 <= g ->
      (ulps M g * ulps (Z.pos m2) e2 <= ulps (Z.pos m1) e1 * 2 ^ 1074 ->
       ulps M g <= ulps (Z.pos m) e) /\
      (ulps (Z.pos m1) e1 * 2 ^ 1074 <= ulps M g * ulps (Z.pos m2) e2 ->
       ulps (Z.pos m) e <= ulps M g).
Proof.
  intros Hm1 Hm2 He1 He2 He.
  unfold div, SFdiv, SFdiv_core_binary. cbn [Zdigits2 xorb].
  rewrite (digits2_pos_unique m1 53), (digits2_pos_unique m2 53)
    by assumption.
  replace (Z.min (fexp prec emax (53 + e1 - (53 + e2))) (e1 - e2))
    with (e1 - e2 - 53) by (unfold fexp, emin, prec, emax; lia).
  replace (e1 - e2 - (e1 - e2 - 53)) with 53 by lia.
  cbv iota beta. rewrite Z.shiftl_mul_pow2 by lia.
  pose proof (Z_div_mod (Z.pos m1 * 2 ^ 53) (Z.pos m2) eq_refl) as Hdiv.
  destruct (Z.div_eucl (Z.pos m1 * 2 ^ 53) (Z.pos m2)) as [q r].
  destruct Hdiv as [Hqr Hr].
  change (2 ^ 53) with 9007199254740992 in *.
  change (2 ^ 52) with 4503599627370496 in *.
  assert (Hq : 2 ^ 52 <= q < 2 ^ 54).
  { change (2 ^ 52) with 4503599627370496.
    change (2 ^ 54) with 18014398509481984. nia. }
  destruct q as [| pq | pq]; [ cbn in Hq; lia | | lia ].
  pose proof (digits2_pos_range pq 52 54 ltac:(lia) Hq) as Hd.
  pose proof (binary_round_aux_rounds pq (e1 - e2 - 53)
                (new_location (Z.pos m2) r)
                (Z.pos m1 * 9007199254740992) (Z.pos m2)) as HB.
  cbv zeta in HB.
  destruct HB as (m & e & Hres & Hm & Hexp & Hs); try lia.
  { intros Hl. apply new_location_inexact in Hl. lia. }
  exists m, e.
  split; [ exact Hres | ]. split; [ exact Hm | ]. split; [ lia | ].
  intros M g HM Hg. destruct (Hs M g HM Hg) as [Hs1 Hs2].
  assert (HP : 0 < 2 ^ (e2 + 1074)) by (apply Z.pow_pos_nonneg; lia).
  assert (Hsc : Z.pos m1 * 9007199254740992 * 2 ^ (e1 - e2 - 53 + 1074)
                * 2 ^ (e2 + 1074) = ulps (Z.pos m1) e1 * 2 ^ 1074).
  { unfold ulps. change 9007199254740992 with (2 ^ 53).
    rewrite <- !Z.mul_assoc, <- !Z.pow_add_r by lia.
    f_equal. f_equal. lia. }
  split; intros H.
  - apply Hs1. apply (mul_le_cancel _ _ (2 ^ (e2 + 1074)) HP).
    rewrite Hsc. unfold ulps in *. lia.
  - apply Hs2. apply (mul_le_cancel _ _ (2 ^ (e2 + 1074)) HP).
    rewrite Hsc. unfold ulps in *. lia.
Qed.

(** *** Addition of two positive normal doubles *)

Lemma add_rounds (m1 m2 : positive) (e1 e2 : Z) :
  2 ^ 52 <= Z.pos m1 < 2 ^ 53 -> 2 ^ 52 <= Z.pos m2 < 2 ^ 53 ->
  -1074 <= e1 <= 969 -> -1074 <= e2 <= 969 ->
  exists m e,
    add (S754_finite false m1 e1) (S754_finite false m2 e2)
      = S754_finite false m e /\
    2 ^ 52 <= Z.pos m < 2 ^ 53 /\
    Z.max e1 e2 <= e <= Z.max e1 e2 + 2 /\
    forall M g, 0 <= M <= 2 ^ 53 -> -1074 <= g ->
      (ulps M g <= ulps (Z.pos m1) e1 + ulps (Z.pos m2) e2 ->
       ulps M g <= ulps (Z.pos m) e) /\
      (ulps (Z.pos m1) e1 + ulps (Z.pos m2) e2 <= ulps M g ->
       ulps (Z.pos m) e <= ulps M g).
Proof.
  intros Hm1 Hm2 He1 He2.
  unfold add, SFadd. cbn [cond_Zopp].
  set (ez := Z.min e1 e2).
  destruct (shl_align_fst m1 e1 ez) as [Hf1 _]; [ lia | ].
  destruct (shl_align_fst m2 e2 ez) as [Hf2 _]; [ lia | ].
  set (a1 := fst (shl_align m1 e1 ez)) in *.
  set (a2 := fst (shl_align m2 e2 ez)) in *.
  change (Z.pos a1 + Z.pos a2) with (Z.pos (a1 + a2)).
  cbn [binary_normalize].
  assert (Hsum : Z.pos (a1 + a2) = Z.pos a1 + Z.pos a2) by reflexivity.
  set (k := Z.max e1 e2 - ez).
  assert (Hk1 : 0 < 2 ^ (e1 - ez)) by (apply Z.pow_pos_nonneg; lia).
  assert (Hk2 : 0 < 2 ^ (e2 - ez)) by (apply Z.pow_pos_nonneg; lia).
  assert (Hkk : 2 ^ k <= 2 ^ (e1 - ez) + 2 ^ (e2 - ez) <= 2 * 2 ^ k).
  { assert (2 ^ (e1 - ez) <= 2 ^ k) by (apply Z.pow_le_mono_r; lia).
    assert (2 ^ (e2 - ez) <= 2 ^ k) by (apply Z.pow_le_mono_r; lia).
    assert (k = e1 - ez \/ k = e2 - ez) as [Hk | Hk] by lia;
      rewrite Hk in *; lia. }
  assert (Hrange : 2 ^ (52 + k) <= Z.pos (a1 + a2) < 2 ^ (54 + k)).
  { rewrite !Z.pow_add_r by lia. rewrite Hsum, Hf1, Hf2.
    change (2 ^ 52) with 4503599627370496 in *.
    change (2 ^ 53) with 9007199254740992 in *.
    change (2 ^ 54) with 18014398509481984. nia. }
  pose proof (digits2_pos_range (a1 + a2) (52 + k) (54 + k) ltac:(lia) Hrange)
    as Hd.
  pose proof (binary_round_rounds (a1 + a2) ez) as HB. cbv zeta in HB.
  destruct HB as (m & e & Hres & Hm & Hexp & Hs); try lia.
  exists m, e.
  split; [ exact Hres | ]. split; [ exact Hm | ]. split; [ lia | ].
  assert (Hu : ulps (Z.pos (a1 + a2)) ez
               = ulps (Z.pos m1) e1 + ulps (Z.pos m2) e2).
  { rewrite <- (ulps_shift (Z.pos m1) e1 (e1 - ez)) by lia.
    rewrite <- (ulps_shift (Z.pos m2) e2 (e2 - ez)) by lia.
    replace (e1 - (e1 - ez)) with ez by lia.
    replace (e2 - (e2 - ez)) with ez by lia.
    rewrite Hsum, Hf1, Hf2. unfold ulps. ring. }
  rewrite <- Hu. exact Hs.
Qed.

(** *** Conversion of an unsigned integer *)

Lemma of_Z_rounds (x : Z) :
  0 < x < 2 ^ 64 ->
  exists m e,
    of_Z x = S754_finite false m e /\
    2 ^ 52 <= Z.pos m < 2 ^ 53 /\
    -52 <= e <= 12 /\
    floor (of_Z x) = of_Z x /\
    forall M g, 0 <= M <= 2 ^ 53 -> -1074 <= g ->
      (ulps M g <= ulps x 0 -> ulps M g <= ulps (Z.pos m) e) /\
      (ulps x 0 <= ulps M g -> ulps (Z.pos m) e <= ulps M g).
Proof.
  intros Hx. destruct x as [| p | p]; [ lia | | lia ].
  unfold of_Z. cbn [binary_normalize].
  pose proof (digits2_pos_range p 0 64 ltac:(lia) ltac:(cbn; lia)) as Hd.
  pose proof (digits2_pos_bounds p) as Hdb.
  pose proof (binary_round_rounds p 0) as HB. cbv zeta in HB.
  destruct HB as (m & e & Hres & Hm & Hexp & Hs); try lia.
  exists m, e. rewrite Hres.
  split; [ reflexivity | ]. split; [ exact Hm | ]. split; [ lia | ].
  split; [ | exact Hs ].
  unfold floor.
  destruct (Z.leb_spec 0 e) as [He | He]; [ reflexivity | ].
  cbn [orb].
  assert (Hp : Z.pos p < 2 ^ 53).
  { assert (2 ^ Z.pos (digits2_pos p) <= 2 ^ 53)
      by (apply Z.pow_le_mono_r; lia).
    lia. }
  destruct (Hs (Z.pos p) 0) as [Hs1 Hs2]; [ lia | lia | ].
  assert (Heq : ulps (Z.pos m) e = ulps (Z.pos p) 0) by lia.
  unfold ulps in Heq.
  replace (0 + 1074) with (- e + (e + 1074)) in Heq by lia.
  rewrite (Z.pow_add_r 2 (- e)) in Heq by lia.
  assert (HP : 0 < 2 ^ (e + 1074)) by (apply Z.pow_pos_nonneg; lia).
  assert (Hmm : Z.pos m = Z.pos p * 2 ^ (- e)).
  { apply (Z.mul_cancel_r _ _ (2 ^ (e + 1074))); lia. }
  rewrite Hmm, Z.mod_mul by (apply Z.pow_nonzero; lia).
  reflexivity.
Qed.

(** *** Conversion back to [size_t] *)

Lemma shiftl_ulps (m e : Z) :
  -1074 <= e -> Z.shiftl m e = ulps m e / 2 ^ 1074.
Proof.
  intros He. unfold ulps.
  destruct (Z.le_gt_cases 0 e) as [Hpos | Hneg].
  - rewrite Z.shiftl_mul_pow2 by lia.
    rewrite Z.pow_add_r by lia.
    rewrite Z.mul_assoc, Z.div_mul by (apply Z.pow_nonzero; lia).
    reflexivity.
  - rewrite Z.shiftl_div_pow2 by lia.
    replace 1074 with (- e + (e + 1074)) at 2 by lia.
    rewrite (Z.pow_add_r 2 (- e)) by lia.
    rewrite Z.div_mul_cancel_r;
      [ reflexivity | apply Z.pow_nonzero; lia .. ].
Qed.

Lemma to_size_t_finite (m : positive) (e : Z) :
  -1074 <= e -> ulps (Z.pos m) e / 2 ^ 1074 < 2 ^ 64 ->
  to_size_t (S754_finite false m e) = Some (ulps (Z.pos m) e / 2 ^ 1074).
Proof.
  intros He Hb. unfold to_size_t, trunc. cbn [cond_Zopp].
  rewrite shiftl_ulps by assumption.
  assert (HP : 0 < 2 ^ 1074) by (apply Z.pow_pos_nonneg; lia).
  assert (HU : 0 <= ulps (Z.pos m) e).
  { unfold ulps. apply Z.mul_nonneg_nonneg; [ lia | ].
    apply Z.pow_nonneg; lia. }
  pose proof (Z.div_pos _ _ HU HP) as Hq.
  unfold SizeT.modulus.
  destruct (Z.leb_spec 0 (ulps (Z.pos m) e / 2 ^ 1074)); [ | lia ].
  destruct (Z.ltb_spec (ulps (Z.pos m) e / 2 ^ 1074) (2 ^ 64)); [ | lia ].
  reflexivity.
Qed.

Lemma to_size_t_between (m : positive) (e n : Z) :
  -1074 <= e -> 0 <= n < 2 ^ 64 ->
  ulps n 0 <= ulps (Z.pos m) e < ulps (n + 1) 0 ->
  to_size_t (S754_finite false m e) = Some n.
Proof.
  intros He Hn Hb.
  change (ulps n 0) with (n * 2 ^ 1074) in Hb.
  change (ulps (n + 1) 0) with ((n + 1) * 2 ^ 1074) in Hb.
  assert (HP : 0 < 2 ^ 1074) by (apply Z.pow_pos_nonneg; lia).
  assert (Hdiv : ulps (Z.pos m) e / 2 ^ 1074 = n).
  { symmetry. apply Z.div_unique with (r := ulps (Z.pos m) e - n * 2 ^ 1074).
    - left. lia.
    - lia. }
  rewrite to_size_t_finite by (rewrite ?Hdiv; lia).
  rewrite Hdiv. reflexivity.
Qed.

(** *** The double computation of [ConvOutSize] *)

Lemma of_Z_one : of_Z 1 = S754_finite false 4503599627370496 (-52).
Proof. reflexivity. Qed.

Lemma ulps_one : ulps 4503599627370496 (-52) = ulps 1 0.
Proof.
  unfold ulps. change (-52 + 1074) with 1022.
  change (0 + 1074) with (52 + 1022).
  rewrite (Z.pow_add_r 2 52) by lia. reflexivity.
Qed.

Lemma quotient_plus_one_chain (x s : Z) :
  0 < x < 2 ^ 64 -> 0 < s < 2 ^ 64 ->
  exists vx vs vq mr er,
    faithful (ulps x 0) 1 vx /\
    faithful (ulps s 0) 1 vs /\
    faithful (vx * 2 ^ 1074) vs vq /\
    faithful (vq + ulps 1 0) 1 (ulps (Z.pos mr) er) /\
    -1074 <= er /\
    quotient_plus_one x s = to_size_t (S754_finite false mr er).
Proof.
  intros Hx Hs. unfold quotient_plus_one.
  destruct (of_Z_rounds x Hx) as (mx & ex & Hfx & Hmx & Hex & Hfl & Hsx).
  destruct (of_Z_rounds s Hs) as (ms & es & Hfs & Hms & Hes & _ & Hss).
  rewrite Hfl, Hfx, Hfs, of_Z_one.
  destruct (div_rounds mx ms ex es) as (mq & eq & Hfq & Hmq & Heq & Hsq);
    try assumption; try lia.
  rewrite Hfq.
  destruct (add_rounds mq 4503599627370496 eq (-52))
    as (mr & er & Hfr & Hmr & Her & Hsr);
    try assumption; try lia.
  rewrite Hfr.
  exists (ulps (Z.pos mx) ex), (ulps (Z.pos ms) es), (ulps (Z.pos mq) eq),
    mr, er.
  split.
  { intros M g HM Hg. rewrite Z.mul_1_r. apply Hsx; assumption. }
  split.
  { intros M g HM Hg. rewrite Z.mul_1_r. apply Hss; assumption. }
  split; [ exact Hsq | ].
  split.
  { intros M g HM Hg. rewrite Z.mul_1_r, <- ulps_one.
    apply Hsr; assumption. }
  split; [ lia | reflexivity ].
Qed.

Lemma quotient_plus_one_zero (s : Z) :
  0 < s < 2 ^ 64 -> quotient_plus_one 0 s = Some 1.
Proof.
  intros Hs. unfold quotient_plus_one.
  destruct (of_Z_rounds s Hs) as (ms & es & Hfs & _).
  rewrite Hfs. reflexivity.
Qed.

(** A stride of zero: the quotient is an infinity or a NaN, which has no
    conversion to [size_t]. *)
Lemma quotient_plus_one_stride0 (x : Z) : quotient_plus_one x 0 = None.
Proof.
  unfold quotient_plus_one.
  change (of_Z 0) with (S754_zero false).
  destruct (floor (of_Z x)) as [sx | sx | | sx mx ex]; reflexivity.
Qed.

(** The result is exact while the quotient stays on a grid that binary64
    represents: [s <= 2 ^ a] and [(x / s + 2) * 2 ^ a <= 2 ^ 53]. *)
Lemma quotient_plus_one_exact (x s a : Z) :
  0 <= a -> 1 <= s <= 2 ^ a -> 0 <= x ->
  (x / s + 2) * 2 ^ a <= 2 ^ 53 ->
  quotient_plus_one x s = Some (x / s + 1).
Proof.
  intros Ha Hs Hx Hgrid.
  assert (HA : 0 < 2 ^ a) by (apply Z.pow_pos_nonneg; lia).
  assert (Hn0 : 0 <= x / s) by (apply Z.div_pos; lia).
  assert (Hdm : x / s * s <= x < (x / s + 1) * s).
  { pose proof (Z.mul_div_le x s ltac:(lia)).
    pose proof (Z.mul_succ_div_gt x s ltac:(lia)). lia. }
  set (n := x / s) in *.
  assert (Ha53 : a <= 53).
  { destruct (Z.le_gt_cases a 53); [ assumption | ].
    assert (2 ^ 54 <= 2 ^ a) by (apply Z.pow_le_mono_r; lia).
    change (2 ^ 54) with 18014398509481984 in *.
    change (2 ^ 53) with 9007199254740992 in *. nia. }
  change (2 ^ 53) with 9007199254740992 in Hgrid.
  assert (Hs53 : s < 9007199254740992) by nia.
  assert (Hx53 : x < 9007199254740992) by nia.
  destruct (Z.eq_dec x 0) as [-> | Hx0].
  { rewrite quotient_plus_one_zero by (cbn; lia).
    subst n. rewrite Z.div_0_l by lia. reflexivity. }
  destruct (quotient_plus_one_chain x s) as
    (vx & vs & vq & mr & er & Fx & Fs & Fq & Fr & Her & ->);
    [ cbn; lia | cbn; lia | ].
  apply to_size_t_between; [ assumption | cbn; nia | ].
  set (W := 2 ^ 1074) in *.
  set (P := 2 ^ (- a + 1074)).
  assert (HP : 0 < P) by (apply Z.pow_pos_nonneg; lia).
  assert (HW : W = 2 ^ a * P).
  { unfold W, P. rewrite <- Z.pow_add_r by lia. f_equal. lia. }
  assert (U0 : forall M, ulps M 0 = M * W) by reflexivity.
  assert (Ua : forall M, ulps M (- a) = M * P) by reflexivity.
  assert (HWpos : 0 < W) by lia.
  change (2 ^ 53) with 9007199254740992 in *.
  (* the two operands are converted exactly *)
  assert (Evx : vx = x * W).
  { destruct (Fx x 0) as [L U]; [ lia | lia | ]. rewrite U0 in *. lia. }
  assert (Evs : vs = s * W).
  { destruct (Fs s 0) as [L U]; [ lia | lia | ]. rewrite U0 in *. lia. }
  subst vx vs.
  (* the quotient lies in [n, n + 1 - 2 ^ - a] *)
  assert (Lq : n * W <= vq).
  { destruct (Fq n 0) as [L _]; [ nia | lia | ]. rewrite U0 in L.
    apply L.
    replace (n * W * (s * W)) with (n * s * (W * W)) by ring.
    replace (x * W * W) with (x * (W * W)) by ring.
    apply Z.mul_le_mono_nonneg_r; nia. }
  assert (Uq : vq <= ((n + 1) * 2 ^ a - 1) * P).
  { destruct (Fq ((n + 1) * 2 ^ a - 1) (- a)) as [_ U]; [ nia | lia | ].
    rewrite Ua in U. apply U.
    replace (x * W * W) with (x * 2 ^ a * (P * W)) by (rewrite HW; ring).
    replace (((n + 1) * 2 ^ a - 1) * P * (s * W))
      with (((n + 1) * 2 ^ a - 1) * s * (P * W)) by ring.
    apply Z.mul_le_mono_nonneg_r; nia. }
  (* and so does the sum with one in [n + 1, n + 2 - 2 ^ - a] *)
  rewrite !U0 in *.
  split.
  - destruct (Fr (n + 1) 0) as [L _]; [ nia | lia | ]. rewrite U0 in L.
    apply L. lia.
  - destruct (Fr ((n + 2) * 2 ^ a - 1) (- a)) as [_ U]; [ nia | lia | ].
    rewrite Ua in U.
    assert (ulps (Z.pos mr) er <= ((n + 2) * 2 ^ a - 1) * P)
      by (apply U; nia).
    nia.
Qed.

(** With a stride of at least two the result always fits [size_t]; a
    lower bound [2 ^ c] on the quotient of the bounds [2 ^ (c + b) <= x]
    and [s <= 2 ^ b] carries over to the result. *)
Lemma quotient_plus_one_bounds (x s lo : Z) :
  0 <= x < 2 ^ 64 -> 2 <= s < 2 ^ 64 ->
  (lo = 0 \/
   exists c b, 0 <= c <= 52 /\ 0 <= b /\ lo = 2 ^ c /\
               s <= 2 ^ b /\ 2 ^ (c + b) <= x) ->
  exists r, quotient_plus_one x s = Some r /\
            lo + 1 <= r <= 2 ^ 63 + 2048.
Proof.
  intros Hx Hs Hlo.
  destruct (Z.eq_dec x 0) as [-> | Hx0].
  { exists 1. rewrite quotient_plus_one_zero by lia.
    split; [ reflexivity | ].
    destruct Hlo as [-> | (c & b & Hc & Hb & -> & _ & Hxb)]; [ cbn; lia | ].
    assert (0 < 2 ^ (c + b)) by (apply Z.pow_pos_nonneg; lia). lia. }
  destruct (quotient_plus_one_chain x s) as
    (vx & vs & vq & mr & er & Fx & Fs & Fq & Fr & Her & ->);
    [ lia | lia | ].
  set (W := 2 ^ 1074) in *.
  assert (HWpos : 0 < W) by (apply Z.pow_pos_nonneg; lia).
  assert (U0 : forall M, ulps M 0 = M * W) by reflexivity.
  assert (Ug : forall M g, 0 <= g -> ulps M g = M * 2 ^ g * W).
  { intros M g Hg. unfold ulps, W. rewrite Z.pow_add_r by lia. ring. }
  change (2 ^ 64) with 18446744073709551616 in *.
  change (2 ^ 63) with 9223372036854775808 in *.
  assert (Hvx0 : 0 <= vx).
  { destruct (Fx 0 0) as [L _]; [ cbn; lia | lia | ].
    rewrite !U0 in L. lia. }
  assert (Uvx : vx <= 18446744073709551616 * W).
  { destruct (Fx (2 ^ 53) 11) as [_ U]; [ lia | lia | ].
    rewrite ?U0, ?Ug in U by lia. cbn in U. lia. }
  assert (Lvs : 2 * W <= vs).
  { destruct (Fs 2 0) as [L _]; [ cbn; lia | lia | ].
    rewrite !U0 in L. lia. }
  assert (Uvq : vq <= 9223372036854775808 * W).
  { destruct (Fq (2 ^ 53) 10) as [_ U]; [ lia | lia | ].
    rewrite ?U0, ?Ug in U by lia. cbn in U. apply U. nia. }
  assert (Uvr : ulps (Z.pos mr) er <= (9223372036854775808 + 2048) * W).
  { destruct (Fr (2 ^ 52 + 1) 11) as [_ U]; [ cbn; lia | lia | ].
    rewrite ?U0, ?Ug in U by lia. cbn in U. lia. }
  assert (Lvq : lo * W <= vq /\ 0 <= lo <= 2 ^ 52).
  { destruct Hlo as [-> | (c & b & Hc & Hb & -> & Hsb & Hxb)].
    - split; [ | cbn; lia ].
      destruct (Fq 0 0) as [L _]; [ cbn; lia | lia | ].
      rewrite U0 in L. nia.
    - assert (HC : 0 < 2 ^ c) by (apply Z.pow_pos_nonneg; lia).
      assert (HB : 0 < 2 ^ b) by (apply Z.pow_pos_nonneg; lia).
      assert (2 ^ c <= 2 ^ 52) by (apply Z.pow_le_mono_r; lia).
      split; [ | lia ].
      assert (Uvs : vs <= 2 ^ b * W).
      { destruct (Fs 1 b) as [_ U]; [ cbn; lia | lia | ].
        rewrite ?U0, ?Ug in U by lia. nia. }
      assert (Lvx : 2 ^ c * 2 ^ b * W <= vx).
      { destruct (Fx 1 (c + b)) as [L _]; [ cbn; lia | lia | ].
        rewrite ?U0, ?Ug in L by lia.
        rewrite Z.pow_add_r in L, Hxb by lia.
        assert (2 ^ c * 2 ^ b * W <= x * W)
          by (apply Z.mul_le_mono_nonneg_r; lia).
        lia. }
      destruct (Fq (2 ^ c) 0) as [L _]; [ lia | lia | ].
      rewrite U0 in L. apply L.
      assert (2 ^ c * W * vs <= 2 ^ c * W * (2 ^ b * W)).
      { apply Z.mul_le_mono_nonneg_l; nia. }
      nia. }
  destruct Lvq as [Lvq Hlo52].
  change (2 ^ 52) with 4503599627370496 in *.
  assert (Lvr : (lo + 1) * W <= ulps (Z.pos mr) er).
  { destruct (Fr (lo + 1) 0) as [L _]; [ cbn; lia | lia | ].
    rewrite !U0 in L. lia. }
  assert (Hdu : ulps (Z.pos mr) er / W <= 9223372036854775808 + 2048).
  { apply Z.div_le_upper_bound; lia. }
  assert (Hdl : lo + 1 <= ulps (Z.pos mr) er / W).
  { apply Z.div_le_lower_bound; lia. }
  exists (ulps (Z.pos mr) er / W).
  split; [ | lia ].
  apply to_size_t_finite; [ assumption | ].
  fold W. change (2 ^ 64) with 18446744073709551616. lia.
Qed.

End DoubleFacts.

(** * Properties *)

Import Double DoubleFacts.
Local Open Scope build_scope.

(** ** [ConvOutSize] *)

Lemma extent_wrap (size k padding : Z) :
  SizeT.sub (SizeT.add size (SizeT.mul 2 padding)) k
  = SizeT.wrap (size + 2 * padding - k).
Proof.
  unfold SizeT.sub, SizeT.add, SizeT.mul, SizeT.wrap.
  rewrite Zplus_mod_idemp_r, Zminus_mod_idemp_l. reflexivity.
Qed.

Lemma ConvOutSize_quotient (size k s padding : Z) :
  ConvOutSize size k s padding
  = quotient_plus_one (SizeT.wrap (size + 2 * padding - k)) s.
Proof.
  unfold ConvOutSize. cbv zeta. rewrite extent_wrap. reflexivity.
Qed.

Example ConvOutSize_224 : ConvOutSize 224 7 2 3 = Some 112.
Proof. vm_compute. reflexivity. Qed.

Example ConvOutSize_pooling : ConvOutSize 114 3 2 0 = Some 56.
Proof. vm_compute. reflexivity. Qed.

Example ConvOutSize_same_size : ConvOutSize 56 3 1 1 = Some 56.
Proof. vm_compute. reflexivity. Qed.

(** With stride 2 the conversion back to [size_t] is always defined. *)
Lemma ConvOutSize_stride2 (size k padding : Z) :
  exists r, ConvOutSize size k 2 padding = Some r /\ 1 <= r <= 2 ^ 63 + 2048.
Proof.
  rewrite ConvOutSize_quotient.
  destruct (quotient_plus_one_bounds (SizeT.wrap (size + 2 * padding - k)) 2 0)
    as (r & Hr & Hb).
  - apply Z.mod_pos_bound. reflexivity.
  - cbn. lia.
  - left. reflexivity.
  - exists r. split; [ exact Hr | lia ].
Qed.

(** C3 (as stated, refuted).  The formula fails where the subtraction wraps
    around, [ConvOutSize(1, 7, 2, 0)] is [2 ^ 63] and not [-2], and where
    binary64 rounds, [ConvOutSize(2 ^ 53 + 1, 1, 1, 0)] is [2 ^ 53] and not
    [2 ^ 53 + 1]. *)
Lemma ConvOutSize_formula_fails :
  ConvOutSize 1 7 2 0 = Some 9223372036854775808 /\
  (1 + 2 * 0 - 7) / 2 + 1 = -2 /\
  ConvOutSize (2 ^ 53 + 1) 1 1 0 = Some (2 ^ 53) /\
  (2 ^ 53 + 1 + 2 * 0 - 1) / 1 + 1 = 2 ^ 53 + 1.
Proof. vm_compute. repeat split. Qed.

(** The formula, where binary64 is exact. *)
Lemma ConvOutSize_exact (size k s padding a : Z) :
  k <= size + 2 * padding ->
  0 <= a -> 1 <= s <= 2 ^ a ->
  ((size + 2 * padding - k) / s + 2) * 2 ^ a <= 2 ^ 53 ->
  ConvOutSize size k s padding = Some ((size + 2 * padding - k) / s + 1).
Proof.
  intros Hk Ha Hs Hgrid.
  assert (Hx : 0 <= size + 2 * padding - k) by lia.
  assert (HA : 0 < 2 ^ a) by (apply Z.pow_pos_nonneg; lia).
  assert (Hq : 0 <= (size + 2 * padding - k) / s) by (apply Z.div_pos; lia).
  assert (Hlt : size + 2 * padding - k < 2 ^ 64).
  { pose proof (Z.mul_succ_div_gt (size + 2 * padding - k) s ltac:(lia)).
    change (2 ^ 53) with 9007199254740992 in Hgrid.
    change (2 ^ 64) with 18446744073709551616. nia. }
  rewrite ConvOutSize_quotient. unfold SizeT.wrap, SizeT.modulus.
  rewrite Z.mod_small by lia.
  apply (quotient_plus_one_exact _ _ a); assumption.
Qed.

(** C3 (amended).  When the kernel is at most the padded size, the stride
    is at least 1 and the values stay on a grid that binary64 represents,
    [s <= 2 ^ a] and [(q + 2) * 2 ^ a <= 2 ^ 53] for the quotient [q],
    then [ConvOutSize(size, k, s, padding)] is
    [floor((size + 2 * padding - k) / s) + 1]; for stride 1 this is
    [size + 2 * padding - k + 1]; and [ConvOutSize(224, 7, 2, 3) = 112]. *)
Theorem ConvOutSize_formula (size k s padding a : Z) :
  k <= size + 2 * padding ->
  0 <= a -> 1 <= s <= 2 ^ a ->
  ((size + 2 * padding - k) / s + 2) * 2 ^ a <= 2 ^ 53 ->
  ConvOutSize size k s padding = Some ((size + 2 * padding - k) / s + 1) /\
  (s = 1 -> ConvOutSize size k s padding = Some (size + 2 * padding - k + 1)) /\
  ConvOutSize 224 7 2 3 = Some 112.
Proof.
  intros Hk Ha Hs Hgrid.
  pose proof (ConvOutSize_exact size k s padding a Hk Ha Hs Hgrid) as Hmain.
  split; [ exact Hmain | ]. split; [ | reflexivity ].
  intros ->. rewrite Hmain, Z.div_1_r. reflexivity.
Qed.

Lemma ConvOutSize_formula_witness :
  ConvOutSize 224 7 2 3 = Some ((224 + 2 * 3 - 7) / 2 + 1) /\
  (2 = 1 -> ConvOutSize 224 7 2 3 = Some (224 + 2 * 3 - 7 + 1)) /\
  ConvOutSize 224 7 2 3 = Some 112.
Proof.
  apply (ConvOutSize_formula 224 7 2 3 1);
    [ lia | lia | cbn; lia | apply Z.leb_le; reflexivity ].
Defined.

(** The formula holds in particular when the padded extent minus the
    kernel, and the stride, are below [2 ^ 26]. *)
Corollary ConvOutSize_small_arguments (size k s padding : Z) :
  k <= size + 2 * padding -> size + 2 * padding - k < 2 ^ 26 ->
  1 <= s <= 2 ^ 26 ->
  ConvOutSize size k s padding = Some ((size + 2 * padding - k) / s + 1).
Proof.
  intros Hk Hx Hs.
  apply (ConvOutSize_exact size k s padding 26); try lia.
  assert ((size + 2 * padding - k) / s <= size + 2 * padding - k).
  { apply Z.div_le_upper_bound; nia. }
  change (2 ^ 26) with 67108864 in *.
  change (2 ^ 53) with 9007199254740992. lia.
Qed.

(** C10 (as stated, refuted).  A wrapped extent does not always give a huge
    result: with the largest stride the result is 2, and with stride 1 and
    a 3x3 kernel the double result [2 ^ 64] has no conversion to
    [size_t]. *)
Lemma ConvOutSize_wrapped_not_huge :
  (0 + 2 * 0 < 1 /\ ConvOutSize 0 1 (2 ^ 64 - 1) 0 = Some 2) /\
  (1 + 2 * 0 < 3 /\ ConvOutSize 1 3 1 0 = None).
Proof. vm_compute. repeat split. Qed.

(** C10 (amended).  For arguments in range with
    [size + 2 * padding < k] the subtraction wraps to
    [size + 2 * padding - k + 2 ^ 64] and nothing rejects it; for every
    stride of at least 2 the function then returns a value, which is above
    [2 ^ 31] for a kernel of at most [2 ^ 63] and a stride of at most
    [2 ^ 32]; with a stride of 0 the division is a floating-point division
    by zero, whose infinite or NaN result has no conversion to [size_t]. *)
Theorem ConvOutSize_unguarded (size k s padding : Z) :
  0 <= size -> 0 <= padding -> size + 2 * padding < k < 2 ^ 64 ->
  SizeT.sub (SizeT.add size (SizeT.mul 2 padding)) k
    = size + 2 * padding - k + 2 ^ 64 /\
  (2 <= s < 2 ^ 64 -> exists r, ConvOutSize size k s padding = Some r) /\
  (k <= 2 ^ 63 -> 2 <= s <= 2 ^ 32 ->
   exists r, ConvOutSize size k s padding = Some r /\ 2 ^ 31 < r) /\
  ConvOutSize size k 0 padding = None.
Proof.
  intros Hsize Hpad Hk.
  assert (Hw : SizeT.wrap (size + 2 * padding - k)
               = size + 2 * padding - k + 2 ^ 64).
  { unfold SizeT.wrap, SizeT.modulus.
    symmetry. apply Z.mod_unique with (q := -1); lia. }
  split; [ rewrite extent_wrap; exact Hw | ].
  rewrite !ConvOutSize_quotient, Hw.
  change (2 ^ 64) with 18446744073709551616 in *.
  change (2 ^ 63) with 9223372036854775808 in *.
  change (2 ^ 32) with 4294967296 in *.
  split; [ | split ].
  - intros Hs.
    destruct (quotient_plus_one_bounds
                (size + 2 * padding - k + 18446744073709551616) s 0)
      as (r & Hr & _).
    + change (2 ^ 64) with 18446744073709551616. lia.
    + change (2 ^ 64) with 18446744073709551616. lia.
    + left. reflexivity.
    + exists r. exact Hr.
  - intros Hk63 Hs.
    destruct (quotient_plus_one_bounds
                (size + 2 * padding - k + 18446744073709551616) s (2 ^ 31))
      as (r & Hr & Hb).
    + change (2 ^ 64) with 18446744073709551616. lia.
    + change (2 ^ 64) with 18446744073709551616. lia.
    + right. exists 31, 32. cbn. lia.
    + exists r. split; [ exact Hr | lia ].
  - apply quotient_plus_one_stride0.
Qed.

Lemma ConvOutSize_unguarded_witness :
  SizeT.sub (SizeT.add 1 (SizeT.mul 2 0)) 7 = 1 + 2 * 0 - 7 + 2 ^ 64 /\
  (2 <= 2 < 2 ^ 64 -> exists r, ConvOutSize 1 7 2 0 = Some r) /\
  (7 <= 2 ^ 63 -> 2 <= 2 <= 2 ^ 32 ->
   exists r, ConvOutSize 1 7 2 0 = Some r /\ 2 ^ 31 < r) /\
  ConvOutSize 1 7 0 0 = None.
Proof.
  apply (ConvOutSize_unguarded 1 7 2 0); [ lia | lia | cbn; lia ].
Defined.

(** ** Running the constructor on an arbitrary heap *)

Lemma supported_dec (v : Z) : {supported v} + {~ supported v}.
Proof.
  unfold supported.
  destruct (Z.eq_dec v 18); [ left; tauto | ].
  destruct (Z.eq_dec v 34); [ left; tauto | ].
  destruct (Z.eq_dec v 50); [ left; tauto | ].
  destruct (Z.eq_dec v 101); [ left; tauto | ].
  destruct (Z.eq_dec v 152); [ left; tauto | ].
  right; tauto.
Qed.

Lemma resolve_version_supported (v : Z) (s : state) :
  supported v -> exists config, resolve_version v s = Done config s.
Proof.
  intros [-> | [-> | [-> | [-> | ->]]]]; eexists; reflexivity.
Qed.

Lemma resolve_version_unsupported (v : Z) (s : state) :
  ~ supported v ->
  resolve_version v s
  = Fatal "Incorrect ResNet version. Possible Values are: 18, 34, 50, 101 and 152" s.
Proof.
  unfold supported, resolve_version. intros Hv.
  destruct (Z.eqb_spec v 18); [ tauto | ].
  destruct (Z.eqb_spec v 34); [ tauto | ].
  destruct (Z.eqb_spec v 50); [ tauto | ].
  destruct (Z.eqb_spec v 101); [ tauto | ].
  destruct (Z.eqb_spec v 152); [ tauto | ].
  reflexivity.
Qed.

Lemma lookup_app_plus {A : Type} (l1 l2 : list A) (k : nat) :
  (l1 ++ l2) !! (length l1 + k)%nat = l2 !! k.
Proof. rewrite lookup_app_r by lia. f_equal. lia. Qed.

Lemma container_Add_Sequential (h0 l : list (node ptr)) (k : nat)
    (ptrs net : list ptr) (p : ptr) (c w h n : Z) :
  l !! k = Some (Sequential ptrs) ->
  container_Add (length h0 + k)%nat p
    {| heap := h0 ++ l; resNet := net; inputChannel := c;
       inputWidth := w; inputHeight := h; numClasses := n |}
  = Done tt
      {| heap := h0 ++ <[k := Sequential (ptrs ++ [p])]> l; resNet := net;
         inputChannel := c; inputWidth := w; inputHeight := h;
         numClasses := n |}.
Proof.
  intros Hk. unfold container_Add.
  cbn [heap resNet inputChannel inputWidth inputHeight numClasses].
  rewrite lookup_app_plus, Hk, insert_app_r. reflexivity.
Qed.

Ltac run :=
  cbv beta iota delta
    [stem after_stem bind ret new resNet_Add get_inputWidth get_inputHeight
     set_inputWidth set_inputHeight update_width update_height defined
     heap resNet inputWidth inputHeight inputChannel numClasses fst snd].

Ltac tidy :=
  cbn [insert list_insert];
  rewrite <- ?app_assoc; cbn [app]; rewrite ?length_app; cbn [length].

Ltac read_back :=
  repeat (cbn [mapM structure mbind mret option_bind option_ret fmap
               option_fmap option_map node_mapM];
          rewrite ?lookup_app_plus; cbn [lookup list_lookup]).

Section Construction.

Variables (w h w1 w3 h1 h3 : Z).
Hypothesis Hw1 : ConvOutSize w 7 2 3 = Some w1.
Hypothesis Hw3 : ConvOutSize (SizeT.add w1 2) 3 2 0 = Some w3.
Hypothesis Hh1 : ConvOutSize h 7 2 3 = Some h1.
Hypothesis Hh3 : ConvOutSize (SizeT.add h1 2) 3 2 0 = Some h3.

Variables (h0 : list (node ptr)) (c n : Z).

Lemma stem_run :
  stem {| heap := h0; resNet := []; inputChannel := c;
          inputWidth := w; inputHeight := h; numClasses := n |}
  = Done tt
      {| heap := h0 ++ stem_objects w h;
         resNet := map (Nat.add (length h0)) [0; 1; 2; 3; 4]%nat;
         inputChannel := c; inputWidth := w3; inputHeight := h3;
         numClasses := n |}.
Proof.
  rewrite <- (app_nil_r h0) at 1.
  run. rewrite Hw1. run. rewrite Hh1. run. rewrite Hw3. run. rewrite Hh3.
  run. tidy. reflexivity.
Qed.

Lemma after_stem_run :
  after_stem
    {| heap := h0 ++ stem_objects w h;
       resNet := map (Nat.add (length h0)) [0; 1; 2; 3; 4]%nat;
       inputChannel := c; inputWidth := w3; inputHeight := h3;
       numClasses := n |}
  = Done tt
      {| heap := h0 ++ stem_objects w h
                    ++ after_stem_objects (length h0) w3 h3;
         resNet := map (Nat.add (length h0)) [0; 1; 2; 3; 4; 5; 8]%nat;
         inputChannel := c; inputWidth := w3; inputHeight := h3;
         numClasses := n |}.
Proof.
  unfold stem_objects. run. tidy.
  erewrite container_Add_Sequential by reflexivity. run. tidy.
  erewrite container_Add_Sequential by reflexivity. run. tidy.
  reflexivity.
Qed.

Lemma graph_stem (w' h' : Z) :
  graph {| heap := h0 ++ stem_objects w h;
           resNet := map (Nat.add (length h0)) [0; 1; 2; 3; 4]%nat;
           inputChannel := c; inputWidth := w'; inputHeight := h';
           numClasses := n |}
  = Some (stem_layers w h).
Proof.
  unfold graph, stem_objects. cbn [heap resNet map].
  read_back. reflexivity.
Qed.

Lemma graph_built (w' h' : Z) :
  graph {| heap := h0 ++ stem_objects w h
                      ++ after_stem_objects (length h0) w3 h3;
           resNet := map (Nat.add (length h0)) [0; 1; 2; 3; 4; 5; 8]%nat;
           inputChannel := c; inputWidth := w'; inputHeight := h';
           numClasses := n |}
  = Some (stem_layers w h ++ after_stem_layers w3 h3).
Proof.
  unfold graph, stem_objects, after_stem_objects. cbn [heap resNet map app].
  read_back. reflexivity.
Qed.

End Construction.

(** The constructor on a supported version: it returns, and the object
    holds the stem followed by a sequential pair of convolutions and an
    identity layer. *)
Lemma ResNet_supported_run (v c w h : Z) (top pre : bool) (n : Z)
    (h0 : list (node ptr)) :
  supported v ->
  exists w1 h1 w3 h3 s,
    ConvOutSize w 7 2 3 = Some w1 /\
    ConvOutSize (SizeT.add w1 2) 3 2 0 = Some w3 /\
    ConvOutSize h 7 2 3 = Some h1 /\
    ConvOutSize (SizeT.add h1 2) 3 2 0 = Some h3 /\
    ResNet v (c, w, h) top pre n h0 = Done tt s /\
    graph s = Some (stem_layers w h ++ after_stem_layers w3 h3) /\
    inputWidth s = w3 /\ inputHeight s = h3.
Proof.
  intros Hv.
  destruct (ConvOutSize_stride2 w 7 3) as (w1 & Hw1 & _).
  destruct (ConvOutSize_stride2 (SizeT.add w1 2) 3 0) as (w3 & Hw3 & _).
  destruct (ConvOutSize_stride2 h 7 3) as (h1 & Hh1 & _).
  destruct (ConvOutSize_stride2 (SizeT.add h1 2) 3 0) as (h3 & Hh3 & _).
  exists w1, h1, w3, h3. eexists.
  do 4 (split; [ eassumption | ]).
  unfold ResNet, ResNet_body. cbn [fst snd].
  unfold bind at 1.
  destruct (resolve_version_supported v
              {| heap := h0; resNet := []; inputChannel := c;
                 inputWidth := w; inputHeight := h; numClasses := n |} Hv)
    as (config & ->).
  unfold bind at 1.
  rewrite (stem_run w h w1 w3 h1 h3 Hw1 Hw3 Hh1 Hh3).
  rewrite after_stem_run.
  split; [ reflexivity | ].
  split; [ apply graph_built | split; reflexivity ].
Qed.

Lemma ResNet_unsupported_run (v : Z) (shape : Z * Z * Z) (top pre : bool)
    (n : Z) (h0 : list (node ptr)) :
  ~ supported v ->
  ResNet v shape top pre n h0
  = Fatal "Incorrect ResNet version. Possible Values are: 18, 34, 50, 101 and 152"
      {| heap := h0; resNet := [];
         inputChannel := fst (fst shape); inputWidth := snd (fst shape);
         inputHeight := snd shape; numClasses := n |}.
Proof.
  intros Hv. unfold ResNet, ResNet_body. unfold bind at 1.
  rewrite resolve_version_unsupported by assumption. reflexivity.
Qed.

(** What is observed of a construction depends on the version, the input
    width and height only: not on the heap it runs in, the flags, the
    number of input channels or the number of classes. *)
Lemma observe_ResNet (v c w h : Z) (top pre : bool) (n : Z)
    (h0 : list (node ptr)) (c' : Z) (top' pre' : bool) (n' : Z)
    (h0' : list (node ptr)) :
  observe (ResNet v (c, w, h) top pre n h0)
  = observe (ResNet v (c', w, h) top' pre' n' h0').
Proof.
  destruct (supported_dec v) as [Hv | Hv].
  - destruct (ResNet_supported_run v c w h top pre n h0 Hv)
      as (w1 & h1 & w3 & h3 & s & Hw1 & Hw3 & Hh1 & Hh3 & Hr & Hg & _).
    destruct (ResNet_supported_run v c' w h top' pre' n' h0' Hv)
      as (w1' & h1' & w3' & h3' & s' & Hw1' & Hw3' & Hh1' & Hh3' & Hr' & Hg' & _).
    rewrite Hr, Hr'. cbn [observe]. rewrite Hg, Hg'.
    congruence.
  - rewrite !ResNet_unsupported_run by assumption. reflexivity.
Qed.

(** ** Version table *)

(** C1.  The block counts and the block builder of each supported version
    are those of the table: 18 -> (2,2,2,2) basic, 34 -> (3,4,6,3) basic,
    50 -> (3,4,6,3) bottleneck, 101 -> (3,4,23,3) bottleneck,
    152 -> (3,8,36,3) bottleneck; the expansion of the basic block is 1
    and that of the bottleneck is 4. *)
Theorem resolve_version_table (s : state) :
  resolve_version 18 s = Done ([2; 2; 2; 2], "basicblock"%string) s /\
  resolve_version 34 s = Done ([3; 4; 6; 3], "basicblock"%string) s /\
  resolve_version 50 s = Done ([3; 4; 6; 3], "bottleneck"%string) s /\
  resolve_version 101 s = Done ([3; 4; 23; 3], "bottleneck"%string) s /\
  resolve_version 152 s = Done ([3; 8; 36; 3], "bottleneck"%string) s /\
  basicBlockExpansion = 1 /\ bottleNeckExpansion = 4.
Proof. repeat split. Qed.

(** ** The constructed graph *)

(** C5.  For every supported version, input shape, flags and class count
    the constructor returns, and the layers it appends first are a 7x7
    stride-2 padding-3 convolution from 3 to 64 channels, a batch
    normalisation, a ReLU, a padding of 1 on each side and a 3x3 stride-2
    max pooling; the input width and height are updated by [ConvOutSize]
    for the convolution, by 2 for the padding and by [ConvOutSize] for the
    pooling; from 224 they arrive at 56. *)
Theorem ResNet_stem (v c w h : Z) (top pre : bool) (n : Z)
    (h0 : list (node ptr)) :
  supported v ->
  exists w1 h1 w3 h3 s1 s rest,
    ConvOutSize w 7 2 3 = Some w1 /\
    ConvOutSize (SizeT.add w1 2) 3 2 0 = Some w3 /\
    ConvOutSize h 7 2 3 = Some h1 /\
    ConvOutSize (SizeT.add h1 2) 3 2 0 = Some h3 /\
    stem {| heap := h0; resNet := []; inputChannel := c;
            inputWidth := w; inputHeight := h; numClasses := n |}
      = Done tt s1 /\
    graph s1 = Some [ Layer (Convolution 3 64 7 7 2 2 3 3 w h);
                      Layer (BatchNorm 64); Layer ReLULayer;
                      Layer (Padding 1 1 1 1);
                      Layer (MaxPooling 3 3 2 2) ] /\
    inputWidth s1 = w3 /\ inputHeight s1 = h3 /\
    ResNet v (c, w, h) top pre n h0 = Done tt s /\
    graph s = Some ([ Layer (Convolution 3 64 7 7 2 2 3 3 w h);
                      Layer (BatchNorm 64); Layer ReLULayer;
                      Layer (Padding 1 1 1 1);
                      Layer (MaxPooling 3 3 2 2) ] ++ rest) /\
    (w = 224 -> w3 = 56) /\ (h = 224 -> h3 = 56).
Proof.
  intros Hv.
  destruct (ResNet_supported_run v c w h top pre n h0 Hv)
    as (w1 & h1 & w3 & h3 & s & Hw1 & Hw3 & Hh1 & Hh3 & Hr & Hg & _).
  exists w1, h1, w3, h3. eexists. exists s, (after_stem_layers w3 h3).
  do 4 (split; [ assumption | ]).
  split; [ apply (stem_run w h w1 w3 h1 h3 Hw1 Hw3 Hh1 Hh3) | ].
  split; [ apply graph_stem | ].
  split; [ reflexivity | ]. split; [ reflexivity | ].
  split; [ exact Hr | ]. split; [ exact Hg | ].
  split.
  - intros ->.
    assert (w1 = 112) as -> by (vm_compute in Hw1; congruence).
    vm_compute in Hw3. congruence.
  - intros ->.
    assert (h1 = 112) as -> by (vm_compute in Hh1; congruence).
    vm_compute in Hh3. congruence.
Qed.

Lemma ResNet_stem_witness :
  exists w1 h1 w3 h3 s1 s rest,
    ConvOutSize 224 7 2 3 = Some w1 /\
    ConvOutSize (SizeT.add w1 2) 3 2 0 = Some w3 /\
    ConvOutSize 224 7 2 3 = Some h1 /\
    ConvOutSize (SizeT.add h1 2) 3 2 0 = Some h3 /\
    stem {| heap := []; resNet := []; inputChannel := 3;
            inputWidth := 224; inputHeight := 224; numClasses := 1000 |}
      = Done tt s1 /\
    graph s1 = Some [ Layer (Convolution 3 64 7 7 2 2 3 3 224 224);
                      Layer (BatchNorm 64); Layer ReLULayer;
                      Layer (Padding 1 1 1 1);
                      Layer (MaxPooling 3 3 2 2) ] /\
    inputWidth s1 = w3 /\ inputHeight s1 = h3 /\
    ResNet 18 (3, 224, 224) true false 1000 [] = Done tt s /\
    graph s = Some ([ Layer (Convolution 3 64 7 7 2 2 3 3 224 224);
                      Layer (BatchNorm 64); Layer ReLULayer;
                      Layer (Padding 1 1 1 1);
                      Layer (MaxPooling 3 3 2 2) ] ++ rest) /\
    (224 = 224 -> w3 = 56) /\ (224 = 224 -> h3 = 56).
Proof.
  apply (ResNet_stem 18 3 224 224 true false 1000 []).
  left. reflexivity.
Defined.

(** C7.  For every version other than 18, 34, 50, 101 and 152 the
    constructor ends in the fatal error, raised before any layer is
    allocated or added: the heap is unchanged and the network is empty. *)
Theorem ResNet_unsupported_version_fails (v : Z) (shape : Z * Z * Z)
    (top pre : bool) (n : Z) (h0 : list (node ptr)) :
  ~ supported v ->
  exists message s,
    ResNet v shape top pre n h0 = Fatal message s /\
    heap s = h0 /\ resNet s = [] /\
    observe (ResNet v shape top pre n h0) = Failed message.
Proof.
  intros Hv. rewrite ResNet_unsupported_run by assumption.
  eexists. eexists. repeat split.
Qed.

Lemma ResNet_unsupported_version_fails_witness :
  exists message s,
    ResNet 200 (3, 224, 224) true false 1000 [] = Fatal message s /\
    heap s = [] /\ resNet s = [] /\
    observe (ResNet 200 (3, 224, 224) true false 1000 []) = Failed message.
Proof.
  apply (ResNet_unsupported_version_fails 200 (3, 224, 224) true false 1000 []).
  unfold supported. lia.
Defined.

(** C8.  Construction is deterministic: two constructions from the same
    configuration give the same layers with the same parameters and
    nesting in the same order (or the same error), in whatever heap each
    of them runs, so also when the second runs in the heap the first one
    left; and the graph read back is never broken. *)
Theorem construction_deterministic (v : Z) (shape : Z * Z * Z)
    (top pre : bool) (n : Z) (h0 h1 : list (node ptr)) :
  observe (ResNet v shape top pre n h1) = observe (ResNet v shape top pre n h0)
  /\ observe (ResNet v shape top pre n h0) <> Broken.
Proof.
  destruct shape as [[c w] h].
  split; [ apply observe_ResNet | ].
  destruct (supported_dec v) as [Hv | Hv].
  - destruct (ResNet_supported_run v c w h top pre n h0 Hv)
      as (w1 & h1' & w3 & h3 & s & _ & _ & _ & _ & Hr & Hg & _).
    rewrite Hr. cbn [observe]. rewrite Hg. discriminate.
  - rewrite ResNet_unsupported_run by assumption. discriminate.
Qed.

(** C9.  The constructor does not read [includeTop] or [preTrained]: two
    constructions that differ in these flags only have the same outcome
    on the same heap, and the same observed graph on any two heaps. *)
Theorem construction_ignores_flags (v : Z) (shape : Z * Z * Z)
    (top1 pre1 top2 pre2 : bool) (n : Z) (h0 h1 : list (node ptr)) :
  ResNet v shape top1 pre1 n h0 = ResNet v shape top2 pre2 n h0 /\
  observe (ResNet v shape top1 pre1 n h0)
  = observe (ResNet v shape top2 pre2 n h1).
Proof.
  split; [ reflexivity | ].
  destruct shape as [[c w] h]. apply observe_ResNet.
Qed.

(** ** Where the constructor falls short of its plan *)

(** C4 (the code falls short).  ResNet-18 on a 3x224x224 input: after the
    stem the constructor appends one sequential pair of 3x3 convolutions
    and an identity layer; none of the eight residual blocks of the four
    stages is built, the calls of [MakeLayer] being commented out. *)
Theorem ResNet18_no_residual_stage :
  observe (ResNet 18 (3, 224, 224) true false 1000 [])
  = Built [ Layer (Convolution 3 64 7 7 2 2 3 3 224 224);
            Layer (BatchNorm 64); Layer ReLULayer;
            Layer (Padding 1 1 1 1); Layer (MaxPooling 3 3 2 2);
            Layer (Sequential
                     [ Layer (Convolution 64 64 3 3 1 1 1 1 56 56);
                       Layer (Convolution 64 64 3 3 1 1 1 1 56 56) ]);
            Layer IdentityLayer ] /\
  exists g,
    observe (ResNet 18 (3, 224, 224) true false 1000 []) = Built g /\
    existsb is_residual_block g = false.
Proof. split; [ | eexists ]; vm_compute; repeat split. Qed.

(** C6 (the code falls short).  ResNet-18 on a 3x224x224 input with
    [includeTop = true]: the graph ends with the identity layer and holds
    neither an adaptive pooling nor a linear layer, the classification
    head being commented out. *)
Theorem ResNet18_includeTop_no_head :
  exists g,
    observe (ResNet 18 (3, 224, 224) true false 1000 []) = Built g /\
    last g = Some (Layer IdentityLayer) /\
    existsb is_head_layer g = false.
Proof. eexists. vm_compute. repeat split. Qed.

(** C2 (the code falls short).  [MakeLayer("basicblock", 128, 2, 1)] on the
    object built for ResNet-18: the first block takes 64 channels to 128,
    yet its shortcut is the identity layer, the test of [MakeLayer]
    comparing [inSize] with [inSize * basicBlockExpansion]. *)
Theorem MakeLayer_first_block_identity_shortcut :
  exists s g block,
    ResNet 18 (3, 224, 224) true false 1000 [] = Done tt s /\
    observe (MakeLayer "basicblock" 128 2 1 s) = Built g /\
    g !! 7%nat = Some block /\
    shortcut block = Some [Layer IdentityLayer] /\
    64 <> 128 * basicBlockExpansion.
Proof.
  eexists. eexists. eexists.
  split; [ vm_compute; reflexivity | ].
  split; [ vm_compute; reflexivity | ].
  split; [ reflexivity | ].
  split; [ reflexivity | ].
  vm_compute. discriminate.
Qed.

(** With a stride of 2 the same call does build the projection, a 1x1
    convolution and a batch normalisation added to the merge, and the
    second block of the stage has the identity shortcut. *)
Example MakeLayer_stride2_projection :
  exists s g first second,
    ResNet 18 (3, 224, 224) true false 1000 [] = Done tt s /\
    observe (MakeLayer "basicblock" 128 2 2 s) = Built g /\
    g !! 7%nat = Some first /\ g !! 8%nat = Some second /\
    shortcut first = Some [ Layer (Convolution 64 128 1 1 1 1 0 0 58 58);
                            Layer (BatchNorm 128) ] /\
    shortcut second = Some [Layer IdentityLayer].
Proof.
  do 4 eexists.
  split; [ vm_compute; reflexivity | ].
  split; [ vm_compute; reflexivity | ].
  repeat split.
Qed.

(** * Further properties of the builders *)

(** ** [ConvOutSize]: range of the result *)





(** X8.  With a stride of at least 2 the conversion of the double result
    is always in range: for every size, kernel and padding the function
    returns a value between 1 and [2 ^ 63 + 2048]. *)
Theorem ConvOutSize_stride_ge_2 (size k s padding : Z) :
  2 <= s < 2 ^ 64 ->
  exists r, ConvOutSize size k s padding = Some r /\
            1 <= r <= 2 ^ 63 + 2048.
Proof.
  intros Hs. rewrite ConvOutSize_quotient.
  destruct (quotient_plus_one_bounds (SizeT.wrap (size + 2 * padding - k)) s 0)
    as (r & Hr & Hb).
  - apply Z.mod_pos_bound. reflexivity.
  - assumption.
  - left. reflexivity.
  - exists r. split; [ exact Hr | lia ].
Qed.

Lemma ConvOutSize_stride_ge_2_witness :
  exists r, ConvOutSize 0 3 2 0 = Some r /\ 1 <= r <= 2 ^ 63 + 2048.
Proof.
  apply (ConvOutSize_stride_ge_2 0 3 2 0). cbn. lia.
Defined.

Lemma ConvOutSize_stride1 (w k padding : Z) :
  0 <= w + 2 * padding - k <= 2 ^ 53 - 2 ->
  ConvOutSize w k 1 padding = Some (w + 2 * padding - k + 1).
Proof.
  intros Hx.
  pose proof (ConvOutSize_exact w k 1 padding 0) as H.
  rewrite Z.div_1_r in H. change (2 ^ 0) with 1 in H.
  apply H; lia.
Qed.

(** ** [ConvolutionBlock3x3] and [ConvolutionBlock1x1] *)

(** X1.  A convolution block on a container adds one child to it, a
    convolution that records the input width and height in effect before
    the block, and then updates the two by the output-size formula; it
    touches no layer of the network.  The kernel is to fit the padded
    size, and size and stride are to be below [2 ^ 26]. *)
Theorem ConvolutionBlock_appends (s : state) (baseLayer : ptr)
    (container : node ptr)
    (inSize outSize kernelWidth kernelHeight
     strideWidth strideHeight padW padH : Z) :
  heap s !! baseLayer = Some container ->
  is_container container = true ->
  kernelWidth <= inputWidth s + 2 * padW ->
  inputWidth s + 2 * padW - kernelWidth < 2 ^ 26 ->
  1 <= strideWidth <= 2 ^ 26 ->
  kernelHeight <= inputHeight s + 2 * padH ->
  inputHeight s + 2 * padH - kernelHeight < 2 ^ 26 ->
  1 <= strideHeight <= 2 ^ 26 ->
  ConvolutionBlock baseLayer inSize outSize kernelWidth kernelHeight
    strideWidth strideHeight padW padH s
  = Done tt
      {| heap :=
           <[baseLayer := with_child container (length (heap s))]>
             (heap s ++
              [Convolution inSize outSize kernelWidth kernelHeight
                 strideWidth strideHeight padW padH
                 (inputWidth s) (inputHeight s)]);
         resNet := resNet s;
         inputChannel := inputChannel s;
         inputWidth :=
           (inputWidth s + 2 * padW - kernelWidth) / strideWidth + 1;
         inputHeight :=
           (inputHeight s + 2 * padH - kernelHeight) / strideHeight + 1;
         numClasses := numClasses s |}.
Proof.
  intros Hc Hcont Hkw Hxw Hsw Hkh Hxh Hsh.
  destruct s as [hp net c w h n].
  cbn [heap resNet inputChannel inputWidth inputHeight numClasses] in *.
  unfold ConvolutionBlock.
  cbv beta iota delta
    [bind ret new get_inputWidth get_inputHeight
     heap resNet inputWidth inputHeight inputChannel numClasses].
  unfold container_Add.
  cbn [heap resNet inputChannel inputWidth inputHeight numClasses].
  rewrite (lookup_app_l_Some _ _ _ _ Hc).
  assert (Hupd :
    forall X : outcome unit,
      match container with
      | Sequential l =>
          Done tt {| heap := <[baseLayer := Sequential (l ++ [length hp])]>
                               (hp ++ [Convolution inSize outSize kernelWidth
                                         kernelHeight strideWidth strideHeight
                                         padW padH w h]);
                     resNet := net; inputChannel := c; inputWidth := w;
                     inputHeight := h; numClasses := n |}
      | AddMerge m r l =>
          Done tt {| heap := <[baseLayer := AddMerge m r (l ++ [length hp])]>
                               (hp ++ [Convolution inSize outSize kernelWidth
                                         kernelHeight strideWidth strideHeight
                                         padW padH w h]);
                     resNet := net; inputChannel := c; inputWidth := w;
                     inputHeight := h; numClasses := n |}
      | _ => X
      end
      = Done tt {| heap := <[baseLayer := with_child container (length hp)]>
                             (hp ++ [Convolution inSize outSize kernelWidth
                                       kernelHeight strideWidth strideHeight
                                       padW padH w h]);
                   resNet := net; inputChannel := c; inputWidth := w;
                   inputHeight := h; numClasses := n |}).
  { intros X. destruct container; try discriminate Hcont; reflexivity. }
  rewrite Hupd.
  cbv beta iota delta
    [bind ret update_width update_height get_inputWidth get_inputHeight
     set_inputWidth set_inputHeight defined
     heap resNet inputWidth inputHeight inputChannel numClasses].
  rewrite (ConvOutSize_small_arguments w kernelWidth strideWidth padW)
    by assumption.
  cbv beta iota.
  rewrite (ConvOutSize_small_arguments h kernelHeight strideHeight padH)
    by assumption.
  reflexivity.
Qed.

Lemma ConvolutionBlock_appends_witness :
  ConvolutionBlock 0%nat 64 64 3 3 1 1 1 1
    {| heap := [Sequential []]; resNet := []; inputChannel := 3;
       inputWidth := 56; inputHeight := 56; numClasses := 1000 |}
  = Done tt
      {| heap :=
           <[0%nat := with_child (Sequential []) 1%nat]>
             ([Sequential []] ++ [Convolution 64 64 3 3 1 1 1 1 56 56]);
         resNet := [];
         inputChannel := 3;
         inputWidth := (56 + 2 * 1 - 3) / 1 + 1;
         inputHeight := (56 + 2 * 1 - 3) / 1 + 1;
         numClasses := 1000 |}.
Proof.
  apply (ConvolutionBlock_appends
           {| heap := [Sequential []]; resNet := []; inputChannel := 3;
              inputWidth := 56; inputHeight := 56; numClasses := 1000 |}
           0%nat (Sequential []) 64 64 3 3 1 1 1 1);
    cbn; first [ reflexivity | lia ].
Defined.

(** ** The constructor: spatial size and unused arguments *)

(** X2.  For a supported version and an input of width and height from 1
    to [2 ^ 52] the constructor leaves the tracked width and height at
    [(w - 1) / 4 + 1] and [(h - 1) / 4 + 1], a quarter of the input
    rounded up, and configures the two convolutions after the stem with
    these. *)
Theorem ResNet_quarter_size (v c w h : Z) (top pre : bool) (n : Z)
    (h0 : list (node ptr)) :
  supported v -> 1 <= w <= 2 ^ 52 -> 1 <= h <= 2 ^ 52 ->
  exists s,
    ResNet v (c, w, h) top pre n h0 = Done tt s /\
    inputWidth s = (w - 1) / 4 + 1 /\
    inputHeight s = (h - 1) / 4 + 1 /\
    graph s
    = Some [ Layer (Convolution 3 64 7 7 2 2 3 3 w h);
             Layer (BatchNorm 64); Layer ReLULayer;
             Layer (Padding 1 1 1 1); Layer (MaxPooling 3 3 2 2);
             Layer (Sequential
                      [ Layer (Convolution 64 64 3 3 1 1 1 1
                                 ((w - 1) / 4 + 1) ((h - 1) / 4 + 1));
                        Layer (Convolution 64 64 3 3 1 1 1 1
                                 ((w - 1) / 4 + 1) ((h - 1) / 4 + 1)) ]);
             Layer IdentityLayer ].
Proof.
  intros Hv Hw Hh.
  assert (Hquarter : forall x x1 x3,
            1 <= x <= 2 ^ 52 ->
            ConvOutSize x 7 2 3 = Some x1 ->
            ConvOutSize (SizeT.add x1 2) 3 2 0 = Some x3 ->
            x3 = (x - 1) / 4 + 1).
  { intros x x1 x3 Hx H1 H3.
    change (2 ^ 52) with 4503599627370496 in Hx.
    assert (Hd : 0 <= (x - 1) / 2 <= 2251799813685248).
    { split; [ apply Z.div_pos; lia | apply Z.div_le_upper_bound; lia ]. }
    assert (Hd' : 0 <= (x - 1) / 2 / 2 <= 1125899906842624).
    { split; [ apply Z.div_pos; lia | apply Z.div_le_upper_bound; lia ]. }
    pose proof (ConvOutSize_exact x 7 2 3 1) as E1.
    replace (x + 2 * 3 - 7) with (x - 1) in E1 by lia.
    change (2 ^ 1) with 2 in E1. change (2 ^ 53) with 9007199254740992 in E1.
    rewrite E1 in H1 by lia. injection H1 as <-.
    unfold SizeT.add, SizeT.wrap, SizeT.modulus in H3.
    rewrite Z.mod_small in H3
      by (change (2 ^ 64) with 18446744073709551616; lia).
    pose proof (ConvOutSize_exact ((x - 1) / 2 + 1 + 2) 3 2 0 1) as E3.
    replace ((x - 1) / 2 + 1 + 2 + 2 * 0 - 3) with ((x - 1) / 2) in E3 by lia.
    change (2 ^ 1) with 2 in E3. change (2 ^ 53) with 9007199254740992 in E3.
    rewrite E3 in H3 by lia. injection H3 as <-.
    rewrite Z.div_div by lia. reflexivity. }
  destruct (ResNet_supported_run v c w h top pre n h0 Hv)
    as (w1 & h1 & w3 & h3 & s & Hw1 & Hw3 & Hh1 & Hh3 & Hr & Hg & Hiw & Hih).
  pose proof (Hquarter w w1 w3 Hw Hw1 Hw3) as Ew.
  pose proof (Hquarter h h1 h3 Hh Hh1 Hh3) as Eh.
  rewrite Ew, Eh in Hg. rewrite Ew in Hiw. rewrite Eh in Hih.
  exists s.
  split; [ exact Hr | ]. split; [ exact Hiw | ].
  split; [ exact Hih | exact Hg ].
Qed.

Lemma ResNet_quarter_size_witness :
  exists s,
    ResNet 18 (3, 224, 224) true false 1000 [] = Done tt s /\
    inputWidth s = (224 - 1) / 4 + 1 /\
    inputHeight s = (224 - 1) / 4 + 1 /\
    graph s
    = Some [ Layer (Convolution 3 64 7 7 2 2 3 3 224 224);
             Layer (BatchNorm 64); Layer ReLULayer;
             Layer (Padding 1 1 1 1); Layer (MaxPooling 3 3 2 2);
             Layer (Sequential
                      [ Layer (Convolution 64 64 3 3 1 1 1 1
                                 ((224 - 1) / 4 + 1) ((224 - 1) / 4 + 1));
                        Layer (Convolution 64 64 3 3 1 1 1 1
                                 ((224 - 1) / 4 + 1) ((224 - 1) / 4 + 1)) ]);
             Layer IdentityLayer ].
Proof.
  apply (ResNet_quarter_size 18 3 224 224 true false 1000 []);
    [ left; reflexivity | cbn; lia | cbn; lia ].
Defined.

Lemma ResNet_supported_final (v c w h w1 w3 h1 h3 : Z) (top pre : bool)
    (n : Z) (h0 : list (node ptr)) :
  supported v ->
  ConvOutSize w 7 2 3 = Some w1 ->
  ConvOutSize (SizeT.add w1 2) 3 2 0 = Some w3 ->
  ConvOutSize h 7 2 3 = Some h1 ->
  ConvOutSize (SizeT.add h1 2) 3 2 0 = Some h3 ->
  ResNet v (c, w, h) top pre n h0
  = Done tt
      {| heap := h0 ++ stem_objects w h
                    ++ after_stem_objects (length h0) w3 h3;
         resNet := map (Nat.add (length h0)) [0; 1; 2; 3; 4; 5; 8]%nat;
         inputChannel := c; inputWidth := w3; inputHeight := h3;
         numClasses := n |}.
Proof.
  intros Hv Hw1 Hw3 Hh1 Hh3.
  unfold ResNet, ResNet_body. cbn [fst snd].
  unfold bind at 1.
  destruct (resolve_version_supported v
              {| heap := h0; resNet := []; inputChannel := c;
                 inputWidth := w; inputHeight := h; numClasses := n |} Hv)
    as (config & ->).
  unfold bind at 1.
  rewrite (stem_run w h w1 w3 h1 h3 Hw1 Hw3 Hh1 Hh3).
  apply after_stem_run.
Qed.

(** X10.  The graph does not depend on the number of input channels or on
    the number of classes: the first convolution always takes 3 channels,
    and the two arguments are only stored in the object. *)
Theorem construction_ignores_channels_and_classes (v c c' w h : Z)
    (top pre : bool) (n n' : Z) (h0 : list (node ptr)) :
  supported v ->
  exists s s',
    ResNet v (c, w, h) top pre n h0 = Done tt s /\
    ResNet v (c', w, h) top pre n' h0 = Done tt s' /\
    heap s = heap s' /\ resNet s = resNet s' /\ graph s = graph s' /\
    inputChannel s = c /\ inputChannel s' = c' /\
    numClasses s = n /\ numClasses s' = n'.
Proof.
  intros Hv.
  destruct (ConvOutSize_stride2 w 7 3) as (w1 & Hw1 & _).
  destruct (ConvOutSize_stride2 (SizeT.add w1 2) 3 0) as (w3 & Hw3 & _).
  destruct (ConvOutSize_stride2 h 7 3) as (h1 & Hh1 & _).
  destruct (ConvOutSize_stride2 (SizeT.add h1 2) 3 0) as (h3 & Hh3 & _).
  do 2 eexists.
  rewrite !(ResNet_supported_final v _ w h w1 w3 h1 h3) by assumption.
  repeat split.
Qed.

Lemma construction_ignores_channels_and_classes_witness :
  exists s s',
    ResNet 18 (1, 224, 224) true false 10 [] = Done tt s /\
    ResNet 18 (3, 224, 224) true false 1000 [] = Done tt s' /\
    heap s = heap s' /\ resNet s = resNet s' /\ graph s = graph s' /\
    inputChannel s = 1 /\ inputChannel s' = 3 /\
    numClasses s = 10 /\ numClasses s' = 1000.
Proof.
  apply (construction_ignores_channels_and_classes 18 1 3 224 224
           true false 10 1000 []).
  left. reflexivity.
Defined.

(** ** [BasicBlock] *)

Lemma structure_app (d : nat) (h0 l : list (node ptr)) :
  forall p t, structure d h0 p = Some t -> structure d (h0 ++ l) p = Some t.
Proof.
  induction d as [| d IH]; intros p t; cbn [structure]; [ discriminate | ].
  destruct (h0 !! p) as [n |] eqn:Hp; [ | discriminate ].
  rewrite (lookup_app_l_Some _ _ _ _ Hp).
  assert (Hm : forall (c : list ptr) k,
             mapM (structure d h0) c = Some k ->
             mapM (structure d (h0 ++ l)) c = Some k).
  { intros c k Hk. apply mapM_Some. apply mapM_Some in Hk.
    eapply Forall2_impl; [ exact Hk | ]. intros x y. apply IH. }
  destruct n; cbn [node_mapM]; try (intros H; exact H).
  - destruct (mapM (structure d h0) network) as [k |] eqn:Hk; [ | discriminate ].
    rewrite (Hm _ _ Hk). intros H; exact H.
  - destruct (mapM (structure d h0) network) as [k |] eqn:Hk; [ | discriminate ].
    rewrite (Hm _ _ Hk). intros H; exact H.
Qed.

Lemma container_Add_AddMerge (h0 l : list (node ptr)) (k : nat)
    (m r : bool) (ptrs net : list ptr) (p : ptr) (c w h n : Z) :
  l !! k = Some (AddMerge m r ptrs) ->
  container_Add (length h0 + k)%nat p
    {| heap := h0 ++ l; resNet := net; inputChannel := c;
       inputWidth := w; inputHeight := h; numClasses := n |}
  = Done tt
      {| heap := h0 ++ <[k := AddMerge m r (ptrs ++ [p])]> l; resNet := net;
         inputChannel := c; inputWidth := w; inputHeight := h;
         numClasses := n |}.
Proof.
  intros Hk. unfold container_Add.
  cbn [heap resNet inputChannel inputWidth inputHeight numClasses].
  rewrite lookup_app_plus, Hk, insert_app_r. reflexivity.
Qed.

Ltac run_block :=
  cbv beta iota delta
    [BasicBlock DownSample ConvolutionBlock3x3 ConvolutionBlock1x1
     ConvolutionBlock bind ret new resNet_Add get_inputWidth get_inputHeight
     set_inputWidth set_inputHeight update_width update_height defined
     heap resNet inputWidth inputHeight inputChannel numClasses fst snd].

Ltac add_child :=
  first [ erewrite container_Add_Sequential by reflexivity
        | erewrite container_Add_AddMerge by reflexivity ].

Ltac conv_out :=
  match goal with
  | H : ConvOutSize ?a ?b ?c ?d = Some _
    |- context [ConvOutSize ?a ?b ?c ?d] => rewrite H
  end.

Ltac block_steps :=
  repeat (first [ add_child | conv_out ]; run_block; tidy).

Section BasicBlockRun.

Variables (inSize outSize kw kh w h w1 h1 : Z).
Hypothesis A1 : ConvOutSize w kw 1 1 = Some w1.
Hypothesis A2 : ConvOutSize h kh 1 1 = Some h1.
Hypothesis A3 : ConvOutSize w1 3 1 1 = Some w1.
Hypothesis A4 : ConvOutSize h1 3 1 1 = Some h1.
Hypothesis A5 : ConvOutSize w1 1 1 0 = Some w1.
Hypothesis A6 : ConvOutSize h1 1 1 0 = Some h1.

Variables (h0 : list (node ptr)) (net : list ptr) (c n : Z).

Lemma BasicBlock_run (downSample : bool) :
  BasicBlock inSize outSize downSample kw kh
    {| heap := h0; resNet := net; inputChannel := c;
       inputWidth := w; inputHeight := h; numClasses := n |}
  = Done tt
      {| heap := h0 ++ basic_block_objects (length h0) inSize outSize
                         downSample kw kh w h w1 h1;
         resNet := net ++ [(length h0 + 0)%nat];
         inputChannel := c; inputWidth := w1; inputHeight := h1;
         numClasses := n |}.
Proof.
  rewrite <- (app_nil_r h0) at 1.
  destruct downSample; run_block; tidy; block_steps; reflexivity.
Qed.

Lemma graph_basic_block (downSample : bool) (g : list layer) (w' h' : Z) :
  graph {| heap := h0; resNet := net; inputChannel := c;
           inputWidth := w; inputHeight := h; numClasses := n |} = Some g ->
  graph {| heap := h0 ++ basic_block_objects (length h0) inSize outSize
                           downSample kw kh w h w1 h1;
           resNet := net ++ [(length h0 + 0)%nat];
           inputChannel := c; inputWidth := w'; inputHeight := h';
           numClasses := n |}
  = Some (g ++ [basic_block_layer inSize outSize downSample kw kh w h w1 h1]).
Proof.
  unfold graph. cbn [heap resNet]. intros Hg.
  apply mapM_Some. apply mapM_Some in Hg.
  apply Forall2_app.
  - eapply Forall2_impl; [ exact Hg | ].
    intros x y. apply structure_app.
  - constructor; [ | constructor ].
    unfold basic_block_objects, basic_block_layer.
    destruct downSample; cbn [app]; read_back; reflexivity.
Qed.

End BasicBlockRun.

Lemma BasicBlock_graph (s : state) (g : list layer) (inSize outSize : Z)
    (downSample : bool) (kernelWidth kernelHeight : Z) :
  graph s = Some g ->
  0 <= inputWidth s + 2 - kernelWidth <= 2 ^ 53 - 2 ->
  0 <= inputHeight s + 2 - kernelHeight <= 2 ^ 53 - 2 ->
  exists s',
    BasicBlock inSize outSize downSample kernelWidth kernelHeight s
      = Done tt s' /\
    graph s'
      = Some (g ++ [basic_block_layer inSize outSize downSample
                      kernelWidth kernelHeight
                      (inputWidth s) (inputHeight s)
                      (inputWidth s + 3 - kernelWidth)
                      (inputHeight s + 3 - kernelHeight)]) /\
    inputWidth s' = inputWidth s + 3 - kernelWidth /\
    inputHeight s' = inputHeight s + 3 - kernelHeight /\
    inputChannel s' = inputChannel s /\ numClasses s' = numClasses s /\
    resNet s' = resNet s ++ [length (heap s)] /\
    exists objects, heap s' = heap s ++ objects.
Proof.
  destruct s as [h0 net c w h n].
  cbn [heap resNet inputChannel inputWidth inputHeight numClasses].
  intros Hg Hw Hh.
  assert (Hconv : forall x k,
            0 <= x + 2 - k <= 2 ^ 53 - 2 ->
            ConvOutSize x k 1 1 = Some (x + 3 - k) /\
            ConvOutSize (x + 3 - k) 3 1 1 = Some (x + 3 - k) /\
            ConvOutSize (x + 3 - k) 1 1 0 = Some (x + 3 - k)).
  { intros x k Hx. repeat split.
    - rewrite ConvOutSize_stride1 by lia. f_equal. lia.
    - rewrite ConvOutSize_stride1 by lia. f_equal. lia.
    - rewrite ConvOutSize_stride1 by lia. f_equal. lia. }
  destruct (Hconv w kernelWidth Hw) as (A1 & A3 & A5).
  destruct (Hconv h kernelHeight Hh) as (A2 & A4 & A6).
  eexists.
  split; [ apply (BasicBlock_run inSize outSize kernelWidth kernelHeight
                    w h _ _ A1 A2 A3 A4 A5 A6) | ].
  split; [ apply graph_basic_block; exact Hg | ].
  cbn [heap resNet inputChannel inputWidth inputHeight numClasses].
  rewrite Nat.add_0_r.
  repeat split. eexists. reflexivity.
Qed.

(** X3.  On an object whose graph is well formed, [BasicBlock] returns and
    appends exactly one layer, leaving the layers before it as they are:
    a sequential of the merge and a ReLU, the merge holding the main path
    (convolution, batch normalisation, ReLU, 3x3 convolution, batch
    normalisation) and the shortcut.  The first convolution has padding 1
    whatever its kernel, so the tracked width and height become
    [w + 3 - kernelWidth] and [h + 3 - kernelHeight]: with the default
    kernel of 1 a basic block grows both by 2.  The kernel is to fit the
    padded size, which is to be below [2 ^ 53]. *)
Theorem BasicBlock_appends_block (s : state) (g : list layer)
    (inSize outSize : Z) (downSample : bool)
    (kernelWidth kernelHeight : Z) :
  graph s = Some g ->
  0 <= inputWidth s + 2 - kernelWidth <= 2 ^ 53 - 2 ->
  0 <= inputHeight s + 2 - kernelHeight <= 2 ^ 53 - 2 ->
  exists s',
    BasicBlock inSize outSize downSample kernelWidth kernelHeight s
      = Done tt s' /\
    graph s'
      = Some (g ++ [basic_block_layer inSize outSize downSample
                      kernelWidth kernelHeight
                      (inputWidth s) (inputHeight s)
                      (inputWidth s + 3 - kernelWidth)
                      (inputHeight s + 3 - kernelHeight)]) /\
    inputWidth s' = inputWidth s + 3 - kernelWidth /\
    inputHeight s' = inputHeight s + 3 - kernelHeight /\
    inputChannel s' = inputChannel s /\ numClasses s' = numClasses s.
Proof.
  intros Hg Hw Hh.
  destruct (BasicBlock_graph s g inSize outSize downSample
              kernelWidth kernelHeight Hg Hw Hh)
    as (s' & Hr & Hg' & Hw' & Hh' & Hc & Hn & _).
  exists s'. repeat split; assumption.
Qed.

Lemma BasicBlock_appends_block_witness :
  exists s',
    BasicBlock 64 128 true 1 1
      {| heap := []; resNet := []; inputChannel := 3; inputWidth := 56;
         inputHeight := 56; numClasses := 1000 |} = Done tt s' /\
    graph s'
      = Some ([] ++ [basic_block_layer 64 128 true 1 1 56 56
                       (56 + 3 - 1) (56 + 3 - 1)]) /\
    inputWidth s' = 56 + 3 - 1 /\ inputHeight s' = 56 + 3 - 1 /\
    inputChannel s' = 3 /\ numClasses s' = 1000.
Proof.
  apply (BasicBlock_appends_block
           {| heap := []; resNet := []; inputChannel := 3; inputWidth := 56;
              inputHeight := 56; numClasses := 1000 |} [] 64 128 true 1 1);
    [ reflexivity | cbn; lia | cbn; lia ].
Defined.

(** X4.  [BasicBlock] builds the projection exactly when [downSample] is
    true: the shortcut is then a 1x1 stride-1 convolution from [inSize]
    to [outSize] with a batch normalisation, both added as branches of
    the merge and configured with the size the main path has left, not
    the size the block was entered with; otherwise it is the identity
    layer. *)
Theorem BasicBlock_shortcut (s : state) (g : list layer)
    (inSize outSize : Z) (downSample : bool)
    (kernelWidth kernelHeight : Z) :
  graph s = Some g ->
  0 <= inputWidth s + 2 - kernelWidth <= 2 ^ 53 - 2 ->
  0 <= inputHeight s + 2 - kernelHeight <= 2 ^ 53 - 2 ->
  exists s' block,
    BasicBlock inSize outSize downSample kernelWidth kernelHeight s
      = Done tt s' /\
    graph s' = Some (g ++ [block]) /\
    (shortcut block = Some [Layer IdentityLayer] <-> downSample = false) /\
    (shortcut block
     = Some [ Layer (Convolution inSize outSize 1 1 1 1 0 0
                       (inputWidth s + 3 - kernelWidth)
                       (inputHeight s + 3 - kernelHeight));
              Layer (BatchNorm outSize) ]
     <-> downSample = true).
Proof.
  intros Hg Hw Hh.
  destruct (BasicBlock_graph s g inSize outSize downSample
              kernelWidth kernelHeight Hg Hw Hh)
    as (s' & Hr & Hg' & _).
  exists s'. eexists.
  split; [ exact Hr | ]. split; [ exact Hg' | ].
  destruct downSample; cbn [basic_block_layer shortcut];
    split; split; intros H; try reflexivity; discriminate H.
Qed.

Lemma BasicBlock_shortcut_witness :
  exists s' block,
    BasicBlock 64 128 false 1 1
      {| heap := []; resNet := []; inputChannel := 3; inputWidth := 56;
         inputHeight := 56; numClasses := 1000 |} = Done tt s' /\
    graph s' = Some ([] ++ [block]) /\
    (shortcut block = Some [Layer IdentityLayer] <-> false = false) /\
    (shortcut block
     = Some [ Layer (Convolution 64 128 1 1 1 1 0 0
                       (56 + 3 - 1) (56 + 3 - 1));
              Layer (BatchNorm 128) ]
     <-> false = true).
Proof.
  apply (BasicBlock_shortcut
           {| heap := []; resNet := []; inputChannel := 3; inputWidth := 56;
              inputHeight := 56; numClasses := 1000 |} [] 64 128 false 1 1);
    [ reflexivity | cbn; lia | cbn; lia ].
Defined.

(** ** [MakeLayer] *)

Lemma repeatM_BottleNeck (count : nat) (s : state) :
  repeatM count BottleNeck s = Done tt s.
Proof.
  induction count as [| count IH]; cbn [repeatM]; [ reflexivity | ].
  unfold bind, BottleNeck, ret at 1. exact IH.
Qed.

(** X5.  [MakeLayer] builds nothing unless the block name is
    ["basicblock"]: for ["bottleneck"] every call goes to the empty
    [BottleNeck], and any other name falls through both tests; the object
    is returned as it was, whatever the other arguments. *)
Theorem MakeLayer_other_blocks (block : string)
    (outSize numBlocks stride : Z) (s : state) :
  block <> "basicblock"%string ->
  MakeLayer block outSize numBlocks stride s = Done tt s.
Proof.
  intros Hb. unfold MakeLayer.
  apply String.eqb_neq in Hb. rewrite Hb.
  destruct (String.eqb block "bottleneck"); [ | reflexivity ].
  cbv zeta. unfold bind, BottleNeck at 1, ret at 1.
  apply repeatM_BottleNeck.
Qed.

Lemma MakeLayer_other_blocks_witness :
  MakeLayer "bottleneck" 512 3 2
    {| heap := []; resNet := []; inputChannel := 3; inputWidth := 56;
       inputHeight := 56; numClasses := 1000 |}
  = Done tt
      {| heap := []; resNet := []; inputChannel := 3; inputWidth := 56;
         inputHeight := 56; numClasses := 1000 |}.
Proof.
  apply (MakeLayer_other_blocks "bottleneck" 512 3 2). discriminate.
Defined.

Lemma repeatM_BasicBlock (outSize : Z) (count : nat) :
  forall (s : state) (g : list layer),
    graph s = Some g ->
    0 <= inputWidth s -> inputWidth s + 2 * Z.of_nat count < 2 ^ 53 ->
    0 <= inputHeight s -> inputHeight s + 2 * Z.of_nat count < 2 ^ 53 ->
    exists s',
      repeatM count (BasicBlock 64 outSize false 1 1) s = Done tt s' /\
      graph s' = Some (g ++ later_blocks count outSize
                              (inputWidth s) (inputHeight s)) /\
      inputWidth s' = inputWidth s + 2 * Z.of_nat count /\
      inputHeight s' = inputHeight s + 2 * Z.of_nat count.
Proof.
  induction count as [| count IH]; intros s g Hg Hw0 Hw Hh0 Hh.
  - exists s. cbn [repeatM later_blocks Z.of_nat].
    rewrite app_nil_r, !Z.add_0_r. auto.
  - rewrite Nat2Z.inj_succ in Hw, Hh.
    destruct (BasicBlock_graph s g 64 outSize false 1 1 Hg)
      as (s1 & Hr1 & Hg1 & Hw1 & Hh1 & _); [ lia | lia | ].
    replace (inputWidth s + 3 - 1) with (inputWidth s + 2) in * by lia.
    replace (inputHeight s + 3 - 1) with (inputHeight s + 2) in * by lia.
    destruct (IH s1 _ Hg1) as (s' & Hr & Hg' & Hw' & Hh'); try lia.
    exists s'. cbn [repeatM later_blocks]. unfold bind at 1.
    rewrite Hr1, Hr. split; [ reflexivity | ].
    rewrite Hg', Hw', Hh', Hw1, Hh1, <- app_assoc, Nat2Z.inj_succ.
    cbn [app]. repeat split; lia.
Qed.

(** X6.  A stage of basic blocks: for [numBlocks] of at least 1, on a well
    formed graph, [MakeLayer("basicblock", outSize, numBlocks, stride)]
    appends exactly [numBlocks] blocks.  The first has the projection
    exactly when the stride is not 1, whatever [outSize] is; all the
    others have the identity shortcut; every block is built from 64
    input channels and with stride 1, and the tracked width and height
    grow by 2 with each block. *)
Theorem MakeLayer_basicblock_stage (s : state) (g : list layer)
    (outSize numBlocks stride : Z) :
  graph s = Some g ->
  1 <= numBlocks < 2 ^ 64 ->
  0 <= inputWidth s -> inputWidth s + 2 * numBlocks < 2 ^ 53 ->
  0 <= inputHeight s -> inputHeight s + 2 * numBlocks < 2 ^ 53 ->
  exists s',
    MakeLayer "basicblock" outSize numBlocks stride s = Done tt s' /\
    graph s'
    = Some (g ++
            basic_block_layer 64 outSize (negb (stride =? 1)) 1 1
              (inputWidth s) (inputHeight s)
              (inputWidth s + 2) (inputHeight s + 2)
            :: later_blocks (Z.to_nat (numBlocks - 1)) outSize
                 (inputWidth s + 2) (inputHeight s + 2)) /\
    inputWidth s' = inputWidth s + 2 * numBlocks /\
    inputHeight s' = inputHeight s + 2 * numBlocks.
Proof.
  intros Hg Hn Hw0 Hw Hh0 Hh.
  unfold MakeLayer. cbn [String.eqb Ascii.eqb Bool.eqb]. cbv zeta.
  change (SizeT.mul 64 basicBlockExpansion) with 64.
  change (64 =? 64) with true. cbn [negb].
  rewrite orb_false_r.
  replace (if negb (stride =? 1) then true else false)
    with (negb (stride =? 1)) by (destruct (stride =? 1); reflexivity).
  replace (SizeT.sub numBlocks 1) with (numBlocks - 1)
    by (unfold SizeT.sub, SizeT.wrap, SizeT.modulus;
        rewrite Z.mod_small; lia).
  destruct (BasicBlock_graph s g 64 outSize (negb (stride =? 1)) 1 1 Hg)
    as (s1 & Hr1 & Hg1 & Hw1 & Hh1 & _); [ lia | lia | ].
  replace (inputWidth s + 3 - 1) with (inputWidth s + 2) in * by lia.
  replace (inputHeight s + 3 - 1) with (inputHeight s + 2) in * by lia.
  destruct (repeatM_BasicBlock outSize (Z.to_nat (numBlocks - 1)) s1 _ Hg1)
    as (s' & Hr & Hg' & Hw' & Hh'); rewrite ?Z2Nat.id by lia; try lia.
  exists s'. unfold bind at 1. rewrite Hr1, Hr.
  split; [ reflexivity | ].
  rewrite Hg', Hw', Hh', Hw1, Hh1, <- app_assoc.
  rewrite ?Z2Nat.id by lia.
  cbn [app]. repeat split; lia.
Qed.

Lemma MakeLayer_basicblock_stage_witness :
  exists s',
    MakeLayer "basicblock" 128 2 1
      {| heap := []; resNet := []; inputChannel := 3; inputWidth := 56;
         inputHeight := 56; numClasses := 1000 |} = Done tt s' /\
    graph s'
    = Some ([] ++
            basic_block_layer 64 128 (negb (1 =? 1)) 1 1 56 56
              (56 + 2) (56 + 2)
            :: later_blocks (Z.to_nat (2 - 1)) 128 (56 + 2) (56 + 2)) /\
    inputWidth s' = 56 + 2 * 2 /\ inputHeight s' = 56 + 2 * 2.
Proof.
  apply (MakeLayer_basicblock_stage
           {| heap := []; resNet := []; inputChannel := 3; inputWidth := 56;
              inputHeight := 56; numClasses := 1000 |} [] 128 2 1);
    first [ reflexivity | cbn; lia ].
Defined.

Ltac conv_cases :=
  match goal with
  | |- context [ConvOutSize ?a ?b ?c ?d] =>
      destruct (ConvOutSize a b c d); [ | exact I ]
  end.

Lemma BasicBlock_appends_one (inSize outSize : Z) (downSample : bool)
    (kw kh : Z) (s : state) :
  appends_layers 1 s (BasicBlock inSize outSize downSample kw kh s).
Proof.
  destruct s as [h0 net c w h n].
  rewrite <- (app_nil_r h0) at 2.
  unfold appends_layers.
  destruct downSample; run_block; tidy;
    repeat (first [ add_child | conv_cases ]; run_block; tidy);
    rewrite ?length_app; reflexivity.
Qed.

Lemma repeatM_appends (body : M unit) (count : nat) :
  (forall s, appends_layers 1 s (body s)) ->
  forall s, appends_layers count s (repeatM count body s).
Proof.
  intros Hbody. induction count as [| count IH]; intros s;
    cbn [repeatM].
  - cbn. lia.
  - unfold bind at 1. specialize (Hbody s).
    destruct (body s) as [[] s1 | message s1 |]; cbn in Hbody |- *;
      [ | contradiction | exact I ].
    specialize (IH s1). unfold appends_layers in IH |- *.
    destruct (repeatM count body s1) as [[] s' | message s' |];
      [ lia | contradiction | exact I ].
Qed.

(** X7.  Whenever [MakeLayer] on ["basicblock"] returns, it has added
    [1 + (numBlocks - 1) mod 2 ^ 64] layers to the network: the first
    block is built before the count is looked at and the loop runs from 1
    until the counter is equal to [numBlocks], so a count of 0 does not
    give an empty stage but one of [2 ^ 64] blocks. *)
Theorem MakeLayer_basicblock_count (outSize numBlocks stride : Z)
    (s s' : state) :
  MakeLayer "basicblock" outSize numBlocks stride s = Done tt s' ->
  Z.of_nat (length (resNet s'))
  = Z.of_nat (length (resNet s)) + 1 + (numBlocks - 1) mod 2 ^ 64 /\
  (numBlocks = 0 ->
   Z.of_nat (length (resNet s')) = Z.of_nat (length (resNet s)) + 2 ^ 64).
Proof.
  intros Hrun.
  assert (Hcount : Z.of_nat (length (resNet s'))
                   = Z.of_nat (length (resNet s)) + 1
                     + (numBlocks - 1) mod 2 ^ 64).
  { unfold MakeLayer in Hrun.
    cbn [String.eqb Ascii.eqb Bool.eqb] in Hrun. cbv zeta in Hrun.
    unfold bind at 1 in Hrun.
    match type of Hrun with
    | context [BasicBlock ?i ?o ?d ?a ?b s] =>
        pose proof (BasicBlock_appends_one i o d a b s) as H1;
        destruct (BasicBlock i o d a b s) as [[] s1 | message s1 |];
        [ | discriminate Hrun | discriminate Hrun ]
    end.
    match type of Hrun with
    | repeatM ?c ?body s1 = _ =>
        pose proof (repeatM_appends body c
                      (BasicBlock_appends_one _ _ _ _ _) s1) as H2
    end.
    rewrite Hrun in H2. cbn in H1, H2.
    assert (0 <= SizeT.sub numBlocks 1)
      by (apply Z.mod_pos_bound; reflexivity).
    change ((numBlocks - 1) mod 2 ^ 64) with (SizeT.sub numBlocks 1).
    lia. }
  split; [ exact Hcount | ].
  intros ->. rewrite Hcount.
  change ((0 - 1) mod 2 ^ 64) with (2 ^ 64 - 1). lia.
Qed.

Lemma MakeLayer_basicblock_count_witness :
  Z.of_nat (length (resNet
     {| heap :=
          basic_block_objects 0 64 128 false 1 1 56 56 58 58
          ++ basic_block_objects 10 64 128 false 1 1 58 58 60 60;
        resNet := [0; 10]%nat; inputChannel := 3; inputWidth := 60;
        inputHeight := 60; numClasses := 1000 |}))
  = Z.of_nat (length (resNet
     {| heap := []; resNet := []; inputChannel := 3; inputWidth := 56;
        inputHeight := 56; numClasses := 1000 |}))
    + 1 + (2 - 1) mod 2 ^ 64 /\
  (2 = 0 ->
   Z.of_nat (length (resNet
     {| heap :=
          basic_block_objects 0 64 128 false 1 1 56 56 58 58
          ++ basic_block_objects 10 64 128 false 1 1 58 58 60 60;
        resNet := [0; 10]%nat; inputChannel := 3; inputWidth := 60;
        inputHeight := 60; numClasses := 1000 |}))
   = Z.of_nat (length (resNet
     {| heap := []; resNet := []; inputChannel := 3; inputWidth := 56;
        inputHeight := 56; numClasses := 1000 |})) + 2 ^ 64).
Proof.
  apply (MakeLayer_basicblock_count 128 2 1). vm_compute. reflexivity.
Defined.
